(** * ti-appium: the Appium and device helpers (src/appium.js)

  A shallow embedding of [Appium_Helper] (startClient, stopClient,
  runAppium, quitServ, getAppium) and of [Device_Helper] (killEmu, getCert,
  getProfile, getAndroidPID, checkBooted).

  The helpers are glue around external processes and libraries.  Every
  external call is an [event] appended to the trace of the [world]; what
  the outside answers (the process list, the result of a shell command,
  the records of ioslib, the replies of the driver) is an input of the
  model.  JavaScript strings are [string]s, objects used as maps are
  [gmap string value], and a promise is the state it has settled in. *)

From Stdlib Require Import ZArith String Ascii List Bool Lia.
From stdpp Require Import base option list gmap strings pretty.

Open Scope string_scope.
Open Scope Z_scope.
Open Scope stdpp_scope.
Open Scope list_scope.

(** ** JavaScript values and string operations *)

Module Js.

(** The values a capability or a reported session field may hold. *)
Inductive value : Type :=
| VUndef
| VBool (b : bool)
| VNum (n : Z)
| VStr (s : string)
| VObj (fs : fields)
with fields : Type :=
| FNil
| FCons (key : string) (v : value) (rest : fields).

(** What a [throw] or a [reject] carries: a bare string, an [Error] built
    with a message, or a [TypeError] raised by the runtime. *)
Inductive thrown : Type :=
| Str (s : string)
| Err (msg : string)
| TypeError.

Inductive result (A : Type) : Type :=
| Ok (a : A)
| Throw (e : thrown).
Arguments Ok {A} a.
Arguments Throw {A} e.

(** The state of a promise built with [new Promise]. *)
Inductive promise : Type :=
| Pending
| Resolved
| Rejected (reason : thrown).

(** [resolve()] and [reject(e)] settle a pending promise and are ignored
    by a settled one. *)
Definition resolve (p : promise) : promise :=
  match p with Pending => Resolved | _ => p end.

Definition reject (e : thrown) (p : promise) : promise :=
  match p with Pending => Rejected e | _ => p end.

(** [s.indexOf(needle)]: the first position where [needle] starts, or -1. *)
Fixpoint indexOf_from (i : Z) (s needle : string) : Z :=
  if String.prefix needle s then i
  else match s with
       | EmptyString => -1
       | String _ s' => indexOf_from (i + 1) s' needle
       end.

Definition indexOf (s needle : string) : Z := indexOf_from 0 s needle.

(** [s.includes(needle)]. *)
Fixpoint includes (s needle : string) : bool :=
  String.prefix needle s ||
  match s with
  | EmptyString => false
  | String _ s' => includes s' needle
  end.

(** [s.split(sep)] for a separator of one character. *)
Fixpoint split_go (sep : ascii) (cur : string) (s : string) : list string :=
  match s with
  | EmptyString => [String.rev cur]
  | String c s' =>
      if Ascii.eqb c sep then String.rev cur :: split_go sep EmptyString s'
      else split_go sep (String c cur) s'
  end.

Definition split (sep : ascii) (s : string) : list string :=
  split_go sep EmptyString s.

(** [arr.indexOf(x)] on an array of strings. *)
Fixpoint array_indexOf_from (i : Z) (l : list string) (x : string) : Z :=
  match l with
  | [] => -1
  | y :: l' => if String.eqb y x then i else array_indexOf_from (i + 1) l' x
  end.

Definition array_indexOf (l : list string) (x : string) : Z :=
  array_indexOf_from 0 l x.

(** [arr[i]]: [None] is [undefined]. *)
Definition array_get (l : list string) (i : Z) : option string :=
  if i <? 0 then None else l !! Z.to_nat i.

(** [arr.includes(x)] on an array of strings. *)
Definition array_includes (l : list string) (x : string) : bool :=
  existsb (String.eqb x) l.

(** [arr.find(p)]. *)
Definition array_find {A : Type} (p : A -> bool) (l : list A) : option A :=
  List.find p l.

(** A non-empty string is truthy. *)
Definition truthy_string (s : string) : bool :=
  match s with EmptyString => false | _ => true end.

End Js.

Export Js.

(** ** Events of the outside world *)

(** Every call that leaves the helper is recorded, in program order. *)
Inductive event : Type :=
| Debug (msg : string)                       (* output.debug(msg) *)
| Step (msg : string)                        (* output.step(msg) *)
| Finish                                     (* output.finish(...) *)
| PsList                                     (* ps() *)
| Spawn (exe : string) (args : list string)  (* spawn(exe, args, ...) *)
| ExecSync (cmd : string)                    (* execSync(cmd) *)
| Exec (cmd : string)                        (* childProcess.exec(cmd, cb) *)
| GetCerts                                   (* ioslib.certs.getCerts() *)
| GetProvisioningProfiles                    (* ioslib.provisioning.getProvisioningProfiles() *)
| ChaiSetup                                  (* chai.use(...); chai.should(); transferPromiseness *)
| PromiseChainRemote (host port : option string)
| LoadDriverCommands
| Init (caps : gmap string value)            (* driver.init(capabilities, cb) *)
| SessionCapabilities
| CloseApp
| RemoveApp (id : value)
| Quit.

(** ** The shared state and the effects of the helpers *)

(** The object [wd.promiseChainRemote({ host, port })] returns. *)
Record driver_handle : Type := mkDriver {
  d_host : option string;
  d_port : option string
}.

(** [global.driver], [global.webdriver], and the calls made so far. *)
Record world : Type := mkWorld {
  g_driver : option driver_handle;
  g_webdriver : bool;
  w_trace : list event
}.

(** The machine the helpers run on: [process.platform], and [path.join] on
    string segments, which belongs to the runtime. *)
Record node : Type := mkNode {
  platform : string;
  path_join : list string -> string
}.

(** Hosts for the examples.  Their [path.join] puts the separator of the
    host between the segments, which is what the runtime does to segments
    that need no normalising. *)
Definition mac : node := mkNode "darwin" (String.concat "/").

Definition windows : node := mkNode "win32" (String.concat "\").

Definition linux : node := mkNode "linux" (String.concat "/").

(** The world with further calls recorded. *)
Definition log (w : world) (es : list event) : world :=
  mkWorld (g_driver w) (g_webdriver w) (w_trace w ++ es).

(** A world where no session is open and nothing has been called. *)
Definition idle : world := mkWorld None false [].

(** A computation that may throw and that reads and writes the world. *)
Definition M (A : Type) : Type := world -> result A * world.

Definition ret {A : Type} (a : A) : M A := fun w => (Ok a, w).

Definition throw {A : Type} (e : thrown) : M A := fun w => (Throw e, w).

Definition bind {A B : Type} (c : M A) (k : A -> M B) : M B :=
  fun w =>
    match c w with
    | (Ok a, w') => k a w'
    | (Throw e, w') => (Throw e, w')
    end.

Notation "x <- c ;; k" := (bind c (fun x => k))
  (at level 100, c at next level, right associativity).
Notation "c ;;; k" := (bind c (fun _ => k))
  (at level 100, right associativity).

(** [try { c } catch (err) { h }], for a handler that ignores [err]. *)
Definition try_catch {A : Type} (c : M A) (h : M A) : M A :=
  fun w =>
    match c w with
    | (Ok a, w') => (Ok a, w')
    | (Throw _, w') => h w'
    end.

Definition emit (e : event) : M unit :=
  fun w => (Ok tt, log w [e]).

(** An external call: it is recorded, then answers what the outside says. *)
Definition call {A : Type} (e : event) (answer : result A) : M A :=
  emit e ;;; fun w => (answer, w).

Definition get_driver : M (option driver_handle) :=
  fun w => (Ok (g_driver w), w).

Definition set_driver (d : option driver_handle) : M unit :=
  fun w => (Ok tt, mkWorld d (g_webdriver w) (w_trace w)).

Definition set_webdriver : M unit :=
  fun w => (Ok tt, mkWorld (g_driver w) true (w_trace w)).

(** An entry of the process list of [ps-list]. *)
Record proc : Type := mkProc {
  pid : Z;
  cmd : string
}.

(** [path.join] of the runtime: a segment that is not a string is a
    [TypeError]. *)
Definition join (nd : node) (segs : list (option string)) : result string :=
  match mapM id segs with
  | Some ss => Ok (path_join nd ss)
  | None => Throw TypeError
  end.

(** [o.key] for a value [o]: reading a property of [undefined] throws. *)
Fixpoint field (fs : fields) (key : string) : value :=
  match fs with
  | FNil => VUndef
  | FCons k v rest => if String.eqb k key then v else field rest key
  end.

Definition prop (o : value) (key : string) : result value :=
  match o with
  | VUndef => Throw TypeError
  | VObj fs => Ok (field fs key)
  | _ => Ok VUndef
  end.

(** [obj.key] on a map: an absent key reads as [undefined]. *)
Definition get (obj : gmap string value) (key : string) : value :=
  default VUndef (obj !! key).

(** [v === 'text'] *)
Definition is_str (v : value) (text : string) : bool :=
  match v with
  | VStr s => String.eqb s text
  | _ => false
  end.

(** ** Appium_Helper *)

Module Appium.

(** [getAppium]: the entry of the process list whose command line contains
    the path of the Appium binary, [None] for [undefined]. *)
Definition appiumPath (nd : node) : string :=
  path_join nd ["node_modules"; ".bin"; "appium"].

Definition getAppium (nd : node) (ps : result (list proc)) : M (option proc) :=
  list <- call PsList ps ;;
  ret (array_find (fun x => includes (cmd x) (appiumPath nd)) list).

(** The switch on [capabilities.platformName] at the head of [startClient]. *)
Definition platform_caps (capabilities : gmap string value) : gmap string value :=
  let platformName := get capabilities "platformName" in
  if is_str platformName "iOS" then
    <["automationName" := VStr "XCUITest"]> capabilities
  else if is_str platformName "Android" then
    <["automationName" := VStr "Appium"]>
      (<["deviceReadyTimeout" := VNum 60]> capabilities)
  else capabilities.

(** The capabilities object as [startClient] leaves it. *)
Definition start_caps (capabilities : gmap string value) : gmap string value :=
  <["newCommandTimeout" := VNum (60 * 10)]> (platform_caps capabilities).

(** What a run of [startClient] leaves behind: the capabilities object of
    the caller, the returned promise, whether the executor ran to its end,
    and the world. *)
Record started : Type := mkStarted {
  s_caps : gmap string value;
  s_promise : promise;
  s_executor : result unit;
  s_world : world
}.

(** [args[args.indexOf(flag) + 1]] for the command line of the server;
    [None] is [undefined]. *)
Definition arg_after (flag : string) (info : proc) : option string :=
  let args := split " " (cmd info) in
  array_get args (array_indexOf args flag + 1).

(** The executor from the lookup of the server on; it returns the promise
    as the calls to [reject] and [resolve] leave it. *)
Definition connect (nd : node) (caps : gmap string value)
    (ps : result (list proc)) (init_err : option thrown) : M promise :=
  processInfo <- getAppium nd ps ;;
  match processInfo with
  | None => throw TypeError                   (* processInfo.cmd *)
  | Some info =>
      let host := arg_after "-a" info in
      let port := arg_after "-p" info in
      let p := match host, port with
               | Some _, Some _ => Pending
               | _, _ => reject (Str "Cannot locate Appium server details") Pending
               end in
      emit (PromiseChainRemote host port) ;;;
      set_driver (Some (mkDriver host port)) ;;;
      set_webdriver ;;;
      emit LoadDriverCommands ;;;
      emit (Init caps) ;;;
      ret (match init_err with
           | Some err => reject err p
           | None => resolve p
           end)
  end.

(** [startClient(capabilities)]; [ps] is what the process list answers and
    [init_err] the error [driver.init] hands to its callback, if any. *)
Definition startClient (nd : node) (capabilities : gmap string value)
    (ps : result (list proc)) (init_err : option thrown) (w : world) : started :=
  let caps := start_caps capabilities in
  match (emit (Debug "Starting WebDriver Instance") ;;;
         emit ChaiSetup ;;;
         connect nd caps ps init_err) w with
  | (Ok p, w') => mkStarted caps p (Ok tt) w'
  | (Throw e, w') => mkStarted caps Pending (Throw e) w'
  end.

(** Inputs for the examples: capabilities of an Android test, process
    lists with and without an Appium server, and a server started with a
    dangling [-a]. *)
Definition android_caps : gmap string value :=
  {[ "platformName" := VStr "Android"; "deviceName" := VStr "Pixel_4";
     "automationName" := VStr "UiAutomator2";
     "app" := VStr "/work/app/build/app.apk" ]}.

Definition other_processes : list proc :=
  [mkProc 1 "/sbin/launchd"; mkProc 402 "/usr/bin/ssh-agent -l"].

Definition appium_without_host : list proc :=
  [mkProc 1 "/sbin/launchd";
   mkProc 977 "node /work/app/node_modules/.bin/appium --log-no-colors -p 4723 -a"].

(** What the driver answers to the calls of [stopClient]. *)
Record driver_replies : Type := mkReplies {
  r_capabilities : result (gmap string value);
  r_closeApp : result unit;
  r_removeApp : result unit;
  r_quit : result unit
}.

(** [stopClient()] *)
Definition stopClient (dr : driver_replies) : M unit :=
  emit (Debug "Stopping WebDriver Instance") ;;;
  driver <- get_driver ;;
  match driver with
  | Some _ =>
      capabilities <- call SessionCapabilities (r_capabilities dr) ;;
      let platform := get capabilities "platformName" in
      emit (Debug "Closing the application") ;;;
      call CloseApp (r_closeApp dr) ;;;
      (if is_str platform "Android" || is_str platform "iOS" then
         emit (Debug "Removing the app from device") ;;;
         id <- (if is_str platform "iOS"
                then ret (get capabilities "CFBundleIdentifier")
                else fun w => (prop (get capabilities "desired") "appPackage", w)) ;;
         call (RemoveApp id) (r_removeApp dr)
       else ret tt) ;;;
      emit (Debug "Exiting the WebDriver session") ;;;
      call Quit (r_quit dr) ;;;
      set_driver None
  | None => ret tt
  end.

(** The addresses [runAppium] accepts. *)
Definition validAddresses : list string := ["localhost"; "0.0.0.0"; "127.0.0.1"].

Definition unsupported_message : string :=
  "Connecting to an External Appium Server is Not Currently Supported".

(** The name of the binary, [None] where the switch leaves [exe] undefined. *)
Definition exe (nd : node) : option string :=
  if String.eqb (platform nd) "darwin" then Some "appium"
  else if String.eqb (platform nd) "win32" then Some "appium.cmd"
  else None.

(** The executor of the promise of [runAppium]; an exception in it rejects
    the promise. *)
Definition runAppium_executor (nd : node) (modRoot hostname : string) (port : Z)
    : M promise :=
  if array_includes validAddresses hostname then
    appiumExe <- (fun w => (join nd [Some modRoot; Some "node_modules";
                                     Some ".bin"; exe nd], w)) ;;
    let flags := ["--log-no-colors"; "-a"; hostname; "-p"; pretty port;
                  "--show-ios-log"] in
    emit (Spawn appiumExe flags) ;;;
    ret Pending
  else ret (reject (Str unsupported_message) Pending).

(** [runAppium(modRoot, { hostname, port })]: the promise as it is when the
    call returns.  An option left out takes its default. *)
Definition runAppium (nd : node) (modRoot : string)
    (hostname : option string) (port : option Z) (w : world) : promise * world :=
  let hostname := default "localhost" hostname in
  let port := default 4723 port in
  match (emit (Step ("Starting Appium Server On '" +:+ hostname +:+ ":"
                       +:+ pretty port +:+ "'")) ;;;
         runAppium_executor nd modRoot hostname port) w with
  | (Ok p, w') => (p, w')
  | (Throw e, w') => (reject e Pending, w')
  end.

(** What the spawned server does after [runAppium] has returned. *)
Inductive server_event : Type :=
| StdoutData (data : string)
| StderrData (data : string)
| ErrorEvent (stack : string).

(** White space of [trim] among the characters below 256. *)
Definition is_space (c : ascii) : bool :=
  let n := nat_of_ascii c in
  ((9 <=? n)%nat && (n <=? 13)%nat) || (n =? 32)%nat || (n =? 160)%nat.

Fixpoint trim_start (s : string) : string :=
  match s with
  | String c s' => if is_space c then trim_start s' else s
  | EmptyString => EmptyString
  end.

Definition trim (s : string) : string :=
  String.rev (trim_start (String.rev (trim_start s))).

(** The regular expression [started on ${hostname}\:${port}$] for a
    hostname of [validAddresses]: every character stands for itself but the
    dot, which stands for any character that does not end a line. *)
Inductive pat : Type :=
| Lit (c : ascii)
| AnyChar.

Definition host_pat (c : ascii) : pat :=
  if Ascii.eqb c "." then AnyChar else Lit c.

Definition started_pattern (hostname : string) (port : Z) : list pat :=
  map Lit (list_ascii_of_string "started on ")
  ++ map host_pat (list_ascii_of_string hostname)
  ++ [Lit ":"%char]
  ++ map Lit (list_ascii_of_string (pretty port)).

Definition pat_matches (p : pat) (c : ascii) : bool :=
  match p with
  | Lit c' => Ascii.eqb c c'
  | AnyChar => negb (Ascii.eqb c "010" || Ascii.eqb c "013")
  end.

(** The pattern matches [s] from its first character to its end. *)
Fixpoint matches_to_end (ps : list pat) (s : string) : bool :=
  match ps, s with
  | [], EmptyString => true
  | p :: ps', String c s' => pat_matches p c && matches_to_end ps' s'
  | _, _ => false
  end.

(** [new RegExp(regStr, 'g').test(line)] *)
Fixpoint regexp_test (ps : list pat) (line : string) : bool :=
  matches_to_end ps line ||
  match line with
  | EmptyString => false
  | String _ line' => regexp_test ps line'
  end.

(** Modelled from the spec: [output.finish(resolve, value)] of output.js,
    which is not among the sources; it ends the step and resolves the
    promise ("resolves once the standard-output stream emits a line
    matching started on host:port"). *)
Definition finish (p : promise) : M promise :=
  emit Finish ;;; ret (resolve p).

(** The handlers [runAppium] registers on the spawned server. *)
Definition server_handler (hostname : string) (port : Z) (ev : server_event)
    (p : promise) : M promise :=
  match ev with
  | StdoutData data =>
      let line := trim data in
      if regexp_test (started_pattern hostname port) line then finish p
      else ret p
  | StderrData data => ret (reject (Str data) p)
  | ErrorEvent stack => ret (reject (Str stack) p)
  end.

(** [quitServ()]; [kill] is what the kill command answers. *)
Definition quitServ (nd : node) (ps : result (list proc)) (kill : result unit)
    : M unit :=
  emit (Step "Stopping Appium Server") ;;;
  processInfo <- getAppium nd ps ;;
  info <- match processInfo with
          | Some info =>
              emit (Debug ("Found Appium server PID: " +:+ pretty (pid info))) ;;;
              ret info
          | None => throw (Err "PID for Appium not found!")
          end ;;
  (if String.eqb (platform nd) "win32" then
     emit (Debug "Detected Windows, killing Appium server with taskkill command") ;;;
     call (ExecSync ("taskkill /F /PID " +:+ pretty (pid info))) kill
   else
     emit (Debug "Presuming UNIX, killing Appium server with kill command") ;;;
     call (ExecSync ("kill -9 " +:+ pretty (pid info))) kill) ;;;
  emit Finish.

(** The events of the spawned server, handled in the order they arrive. *)
Fixpoint serve (hostname : string) (port : Z) (evs : list server_event)
    (p : promise) : M promise :=
  match evs with
  | [] => ret p
  | ev :: evs' =>
      p' <- server_handler hostname port ev p ;;
      serve hostname port evs' p'
  end.

End Appium.

(** ** Device_Helper: the boot poll *)

Module Device.

(** What [childProcess.exec] hands to its callback. *)
Record exec_result : Type := mkExec {
  error : option thrown;
  stdout : string;
  stderr : string
}.

(** The variables the callbacks of [checkBooted] close over: [count], the
    interval timer (true while it has not been cleared), the promise, and
    the trace of calls made so far. *)
Record poll : Type := mkPoll {
  count : Z;
  interval : bool;
  settled : promise;
  trace : list event
}.

Definition boot_cmd (platform : string) : string :=
  if String.eqb platform "emulator" || String.eqb platform "genymotion"
  then "adb -e shell getprop init.svc.bootanim"
  else "adb -d shell getprop init.svc.bootanim".

Definition timeout_message : string :=
  "Emulator didn't boot in 20 sequences, assuming an issue has occured".

(** The callback given to [childProcess.exec]. *)
Definition exec_callback (platform : string) (r : exec_result) (st : poll) : poll :=
  let count' := count st + 1 in
  if indexOf (stdout r) "stopped" >? -1 then
    mkPoll count' false (resolve (settled st)) (trace st)
  else if count' >=? 20 then
    mkPoll count' false (reject (Str timeout_message) (settled st)) (trace st)
  else
    let tr := if truthy_string (stderr r)
              then trace st ++ [Debug (stderr r)] else trace st in
    match error r with
    | Some e => mkPoll count' false (reject e (settled st)) tr
    | None =>
        mkPoll count' (interval st) (settled st)
               (tr ++ [Debug (platform +:+ " still booting")])
    end.

(** What happens while [checkBooted] waits, one event of the event loop at
    a time: the interval timer fires, or a command that was issued calls
    back with its answer.  The timer fires every 3 seconds whether or not
    earlier commands have called back, so several commands can be in
    flight. *)
Inductive step : Type :=
| Fire
| Answer (r : exec_result).

(** The function given to [setInterval]: it issues the command.  The timer
    fires no more once it has been cleared. *)
Definition fire (platform : string) (st : poll) : poll :=
  if interval st
  then mkPoll (count st) (interval st) (settled st)
              (trace st ++ [Exec (boot_cmd platform)])
  else st.

Definition take (platform : string) (s : step) (st : poll) : poll :=
  match s with
  | Fire => fire platform st
  | Answer r => exec_callback platform r st
  end.

Fixpoint play (platform : string) (steps : list step) (st : poll) : poll :=
  match steps with
  | [] => st
  | s :: steps' => play platform steps' (take platform s st)
  end.

(** [checkBooted(platform)] after the events [steps], from the moment the
    interval timer is set. *)
Definition checkBooted (platform : string) (steps : list step) : poll :=
  play platform steps (mkPoll 0 true Pending []).

(** The number of shell commands issued. *)
Fixpoint execs (tr : list event) : nat :=
  match tr with
  | [] => 0%nat
  | Exec _ :: tr' => S (execs tr')
  | _ :: tr' => execs tr'
  end.

Definition polls (st : poll) : nat := execs (trace st).

Definition has_stopped (r : exec_result) : bool :=
  indexOf (stdout r) "stopped" >? -1.

(** A poll that neither reports the boot as finished nor fails. *)
Definition still_booting (r : exec_result) : Prop :=
  has_stopped r = false /\ error r = None.

(** Answers of the boot-animation query, for the examples. *)
Definition answer_running : exec_result := mkExec None "running" "".

Definition answer_stopped : exec_result := mkExec None "stopped" "".

Definition answer_failed : exec_result :=
  mkExec (Some (Err "Command failed: adb -e shell getprop init.svc.bootanim"))
         "" "error: no emulators found".

Definition answer_stopped_failed : exec_result :=
  mkExec (Some (Err "Command failed: adb -e shell getprop init.svc.bootanim"))
         "stopped" "".

(** The answers of a run, in the order the callbacks ran. *)
Fixpoint answers (steps : list step) : list exec_result :=
  match steps with
  | [] => []
  | Fire :: steps' => answers steps'
  | Answer r :: steps' => r :: answers steps'
  end.

(** The run in which every command is answered before the timer fires
    again. *)
Definition in_step (rs : list exec_result) : list step :=
  flat_map (fun r => [Fire; Answer r]) rs.

(** The commands issued and not yet answered. *)
Definition in_flight (st : poll) : Z := Z.of_nat (polls st) - count st.

(** A run the program can meet: every answer is the answer of a command in
    flight.  The properties below are proved of every list of steps, so of
    the possible ones; the runs given as examples are possible. *)
Fixpoint possible_from (platform : string) (steps : list step) (st : poll) : bool :=
  match steps with
  | [] => true
  | s :: steps' =>
      match s with
      | Fire => true
      | Answer _ => 0 <? in_flight st
      end && possible_from platform steps' (take platform s st)
  end.

Definition possible (platform : string) (steps : list step) : bool :=
  possible_from platform steps (mkPoll 0 true Pending []).

(** A run with two commands in flight throughout, as when each answer takes
    between 3 and 6 seconds: two firings, then an answer before each further
    firing. *)
Definition overlapping (rs : list exec_result) : list step :=
  [Fire; Fire] ++ flat_map (fun r => [Answer r; Fire]) rs.

(** The timer runs exactly while the promise is pending, and while it runs
    fewer than 20 answers have been counted. *)
Definition polling (st : poll) : Prop :=
  (interval st = true <-> settled st = Pending)
  /\ (interval st = true -> count st < 20).

(** ** Device_Helper: process lookup and kill *)

(** [getAndroidPID(deviceName)] *)
Definition getAndroidPID (deviceName : string) (ps : result (list proc)) : M Z :=
  try_catch
    (list <- call PsList ps ;;
     match array_find (fun x => includes (cmd x) deviceName) list with
     | Some p => ret (pid p)
     | None => throw TypeError               (* proc.pid *)
     end)
    (throw (Err ("Cannot find an Android PID for " +:+ deviceName))).

(** [killEmu(deviceName)] *)
Definition killEmu (nd : node) (deviceName : string) (ps : result (list proc))
    (kill : result unit) : M unit :=
  devicePID <- getAndroidPID deviceName ps ;;
  emit (Debug ("Found Android emulator PID: " +:+ pretty devicePID)) ;;;
  if String.eqb (platform nd) "win32" then
    emit (Debug "Detected Windows, killing emulator with taskkill command") ;;;
    call (ExecSync ("taskkill /F /PID " +:+ pretty devicePID)) kill
  else
    emit (Debug "Presuming UNIX, killing emulator with kill command") ;;;
    call (ExecSync ("kill -9 " +:+ pretty devicePID)) kill.

(** ** Device_Helper: certificates and provisioning profiles *)

(** A record of ioslib: its name and whatever else it carries. *)
Record entry : Type := mkEntry {
  name : string;
  details : list (string * string)
}.

(** The loop [records.forEach(r => { if (p(r)) found = r; })]. *)
Definition keep_last (p : entry -> bool) (records : list entry) : option entry :=
  fold_left (fun found r => if p r then Some r else found) records None.

Definition valid_cert_types : list string := ["developer"; "distribution"].

Definition valid_profile_types : list string :=
  ["adhoc"; "development"; "distribution"].

Definition invalid_cert_type (type : string) : thrown :=
  Err ("Argument '" +:+ type +:+ "' is not a valid type of certificate").

Definition invalid_profile_type (type : string) : thrown :=
  Err ("Argument '" +:+ type +:+ "' is not a valid type of provisioning profile").

Definition no_cert (search : string) : thrown :=
  Err ("No certificate found with a name including '" +:+ search +:+ "'").

Definition no_profile (search : string) : thrown :=
  Err ("No provisioning profile found with a name matching '" +:+ search +:+ "'").

(** Records for the examples. *)
Definition dev_cert_old : entry :=
  mkEntry "iPhone Developer: Jo Bloggs (OLD1234567)" [("expired", "true")].

Definition dev_cert_new : entry :=
  mkEntry "iPhone Developer: Jo Bloggs (NEW7654321)" [("expired", "false")].

Definition dist_cert : entry :=
  mkEntry "iPhone Distribution: Example Ltd" [].

Definition sample_certs : gmap string (list entry) :=
  {[ "developer" := [dev_cert_old; dev_cert_new]; "distribution" := [dist_cert] ]}.

Definition sample_profiles : gmap string (list entry) :=
  {[ "development" := [mkEntry "Wildcard" [("uuid", "1")];
                        mkEntry "Wildcard Dev" [("uuid", "2")];
                        mkEntry "Wildcard" [("uuid", "3")]] ]}.

(** [getCert(type, search)]; [lib] is what [ioslib.certs.getCerts()]
    answers, a map from a type to its records.  The result [None] is
    [undefined]. *)
Definition getCert (nd : node) (type search : string)
    (lib : result (gmap string (list entry))) : M (option entry) :=
  if negb (String.eqb (platform nd) "darwin") then ret None
  else
    certs <- call GetCerts lib ;;
    let subCerts := certs !! type in
    if negb (array_includes valid_cert_types type) then
      throw (invalid_cert_type type)
    else
      match subCerts with
      | None => throw TypeError              (* subCerts.forEach *)
      | Some records =>
          match keep_last (fun cert => includes (name cert) search) records with
          | None => throw (no_cert search)
          | Some foundCert => ret (Some foundCert)
          end
      end.

(** [getProfile(type, search)]; [lib] is what
    [ioslib.provisioning.getProvisioningProfiles()] answers. *)
Definition getProfile (nd : node) (type search : string)
    (lib : result (gmap string (list entry))) : M (option entry) :=
  if negb (String.eqb (platform nd) "darwin") then ret None
  else
    profiles <- call GetProvisioningProfiles lib ;;
    let subProfiles := profiles !! type in
    if negb (array_includes valid_profile_types type) then
      throw (invalid_profile_type type)
    else
      match subProfiles with
      | None => throw TypeError              (* subProfiles.forEach *)
      | Some records =>
          match keep_last (fun profile => String.eqb (name profile) search) records with
          | None => throw (no_profile search)
          | Some foundProfile => ret (Some foundProfile)
          end
      end.

(** ** Device_Helper: launching and shutting down *)

(** The run of a poll up to the event that settles its promise: the state
    right after that event and the events still to come, or [None] while
    the promise is pending. *)
Fixpoint settle (platform : string) (steps : list step) (st : poll)
    : option (poll * list step) :=
  match steps with
  | [] => None
  | s :: steps' =>
      match settled (take platform s st) with
      | Pending => settle platform steps' (take platform s st)
      | _ => Some (take platform s st, steps')
      end
  end.

(** The calls a poll in state [st] makes during [steps]. *)
Definition calls (platform : string) (steps : list step) (st : poll) : list event :=
  trace (play platform steps
           (mkPoll (count st) (interval st) (settled st) [])).

(** [await checkBooted(platform); output.debug(`${deviceName} is booted`)]:
    the caller resumes right after the event that settles the promise of
    the poll, before any later event, and logs when the promise was
    resolved.  The calls of the poll are recorded as they come, those of
    late callbacks after the line of the caller.  The answer is [None]
    while the promise of the poll is pending. *)
Definition await_booted (platform deviceName : string) (steps : list step)
    (w : world) : option (result unit) * world :=
  let start := mkPoll 0 true Pending [] in
  match settle platform steps start with
  | None => (None, log w (trace (play platform steps start)))
  | Some (st, late) =>
      match settled st with
      | Resolved =>
          (Some (Ok tt),
           log w (trace st ++ [Debug (deviceName +:+ " is booted")]
                  ++ calls platform late st))
      | Rejected e => (Some (Throw e), log w (trace st ++ calls platform late st))
      | Pending => (None, log w (trace st ++ calls platform late st))
      end
  end.

(** [launchEmu(deviceName)]; [android_home] is [process.env.ANDROID_HOME],
    [ps] what the process list answers and [steps] what happens while the
    poll waits.  The result [None] is a promise still waiting for the
    poll. *)
Definition launchEmu (nd : node) (android_home : option string)
    (deviceName : string) (ps : result (list proc)) (steps : list step)
    (w : world) : option (result unit) * world :=
  match (emit (Debug "Checking if emulator is already booted") ;;;
         getAndroidPID deviceName ps) w with
  | (Ok _, w1) => (Some (Ok tt), log w1 [Debug (deviceName +:+ " is booted")])
  | (Throw _, w1) =>
      match (emit (Debug ("Can't find a running instance, launching Android emulator '"
                            +:+ deviceName +:+ "'")) ;;;
             cmd <- (fun w => (join nd [android_home; Some "emulator";
                                        Some "emulator"], w)) ;;
             emit (Spawn cmd ["-avd"; deviceName; "-wipe-data"])) w1 with
      | (Throw e, w2) => (Some (Throw e), w2)
      | (Ok _, w2) => await_booted "emulator" deviceName steps w2
      end
  end.

(** [launchGeny(deviceName)] *)
Definition launchGeny (nd : node) (deviceName : string)
    (ps : result (list proc)) (steps : list step)
    (w : world) : option (result unit) * world :=
  match (emit (Debug "Checking if Genymotion emulator is already booted") ;;;
         getAndroidPID deviceName ps) w with
  | (Ok _, w1) => (Some (Ok tt), log w1 [Debug (deviceName +:+ " is booted")])
  | (Throw _, w1) =>
      let cmd :=
        if String.eqb (platform nd) "darwin"
        then path_join nd ["/"; "Applications"; "Genymotion.app"; "Contents";
                           "MacOS"; "player.app"; "Contents"; "MacOS"; "player"]
        else path_join nd [] in
      match (emit (Debug ("Can't find a running instance, booting Genymotion emulator '"
                            +:+ deviceName +:+ "'")) ;;;
             emit (Spawn cmd ["--vm-name"; deviceName])) w1 with
      | (Throw e, w2) => (Some (Throw e), w2)
      | (Ok _, w2) => await_booted "genymotion" deviceName steps w2
      end
  end.

(** [killSim()], once its timer of 5 seconds has fired; [shutdown] is what
    the shutdown command answers.  An exception in the executor rejects the
    promise. *)
Definition killSim (shutdown : result unit) (w : world) : promise * world :=
  match (emit (Debug "Shutting Down the iOS Simulator") ;;;
         call (ExecSync "xcrun simctl shutdown booted") shutdown) w with
  | (Throw e, w') => (Rejected e, w')
  | (Ok _, w') => (Resolved, log w' [Spawn "killall" ["Simulator"]])
  end.

End Device.

(** * Properties *)

(** ** The model at work *)

Module Sanity.
Import Appium Device.

Example split_command_line :
  split " " "node appium -a 0.0.0.0  -p 4723"
  = ["node"; "appium"; "-a"; "0.0.0.0"; ""; "-p"; "4723"].
Proof. reflexivity. Qed.

Example split_empty : split " " "" = [""].
Proof. reflexivity. Qed.

Example indexOf_found : indexOf "1 stopped" "stopped" = 2.
Proof. reflexivity. Qed.

Example indexOf_missing : indexOf "running" "stopped" = -1.
Proof. reflexivity. Qed.

Example host_of_server :
  arg_after "-a" (mkProc 977 "node appium --log-no-colors -a 0.0.0.0 -p 4723")
  = Some "0.0.0.0".
Proof. reflexivity. Qed.

(** Without the flag, [indexOf] is -1 and the first word is taken. *)
Example host_without_flag :
  arg_after "-a" (mkProc 977 "node appium -p 4723") = Some "node".
Proof. reflexivity. Qed.

Example host_undefined :
  arg_after "-a" (mkProc 977 "node appium -p 4723 -a") = None.
Proof. reflexivity. Qed.

Example server_started :
  server_handler "0.0.0.0" 4723
    (StdoutData "[Appium] Appium REST http interface listener started on 0.0.0.0:4723 ")
    Pending idle
  = (Ok Resolved, log idle [Finish]).
Proof. reflexivity. Qed.

Example server_not_yet_started :
  server_handler "localhost" 4723
    (StdoutData "[Appium] Welcome to Appium v1.8.1") Pending idle
  = (Ok Pending, idle).
Proof. reflexivity. Qed.

Example server_stderr :
  server_handler "localhost" 4723 (StderrData "EADDRINUSE") Pending idle
  = (Ok (Rejected (Str "EADDRINUSE")), idle).
Proof. reflexivity. Qed.

Example stop_android_session :
  stopClient
    (mkReplies (Ok {[ "platformName" := VStr "Android";
                      "desired" := VObj (FCons "appPackage" (VStr "com.example.app") FNil) ]})
               (Ok tt) (Ok tt) (Ok tt))
    (mkWorld (Some (mkDriver (Some "localhost") (Some "4723"))) true [])
  = (Ok tt,
     mkWorld None true
       [Debug "Stopping WebDriver Instance"; SessionCapabilities;
        Debug "Closing the application"; CloseApp;
        Debug "Removing the app from device"; RemoveApp (VStr "com.example.app");
        Debug "Exiting the WebDriver session"; Quit]).
Proof. reflexivity. Qed.

Example quit_server_on_mac :
  quitServ mac (Ok appium_without_host) (Ok tt) idle
  = (Ok tt,
     log idle [Step "Stopping Appium Server"; PsList;
               Debug "Found Appium server PID: 977";
               Debug "Presuming UNIX, killing Appium server with kill command";
               ExecSync "kill -9 977"; Finish]).
Proof. reflexivity. Qed.

Example boot_after_three_polls :
  checkBooted "emulator"
    (in_step [answer_running; answer_running; answer_stopped])
  = mkPoll 3 false Resolved
      [Exec "adb -e shell getprop init.svc.bootanim"; Debug "emulator still booting";
       Exec "adb -e shell getprop init.svc.bootanim"; Debug "emulator still booting";
       Exec "adb -e shell getprop init.svc.bootanim"].
Proof. reflexivity. Qed.

Example boot_of_a_device_fails :
  checkBooted "device" [Fire; Answer answer_failed]
  = mkPoll 1 false
      (Rejected (Err "Command failed: adb -e shell getprop init.svc.bootanim"))
      [Exec "adb -d shell getprop init.svc.bootanim";
       Debug "error: no emulators found"].
Proof. reflexivity. Qed.

(** A second command is issued before the first has answered "stopped"; its
    answer comes after the promise has resolved, is counted and logged. *)
Example boot_with_a_late_answer :
  checkBooted "emulator" [Fire; Fire; Answer answer_stopped; Answer answer_running]
  = mkPoll 2 false Resolved
      [Exec "adb -e shell getprop init.svc.bootanim";
       Exec "adb -e shell getprop init.svc.bootanim";
       Debug "emulator still booting"].
Proof. reflexivity. Qed.

Example overlapping_is_possible :
  possible "emulator" (overlapping (repeat answer_running 20)) = true
  /\ polls (checkBooted "emulator" (overlapping (repeat answer_running 20))) = 21%nat.
Proof. split; reflexivity. Qed.

Example no_answer_without_a_command :
  possible "emulator" [Answer answer_stopped] = false.
Proof. reflexivity. Qed.

End Sanity.

(** ** Strings and arrays *)

Module JsFacts.

Lemma append_nil (s : string) : "" +:+ s = s.
Proof. reflexivity. Qed.

Lemma append_cons (c : ascii) (s t : string) :
  String c s +:+ t = String c (s +:+ t).
Proof. reflexivity. Qed.

Lemma prefix_append (needle s : string) :
  String.prefix needle s = true <-> exists rest, s = needle +:+ rest.
Proof.
  revert s. induction needle as [|c needle IH]; intros s.
  - split; [intros _; exists s; reflexivity|intros _; destruct s; reflexivity].
  - destruct s as [|c' s]; simpl.
    + split; [discriminate|]. intros [rest H]. rewrite append_cons in H. discriminate.
    + destruct (Ascii.ascii_dec c c') as [->|Hne].
      * rewrite IH. split; intros [rest H]; exists rest.
        -- rewrite append_cons. congruence.
        -- rewrite append_cons in H. congruence.
      * split; [discriminate|]. intros [rest H]. rewrite append_cons in H. congruence.
Qed.

Lemma includes_nil (needle : string) :
  includes "" needle = String.prefix needle "" || false.
Proof. reflexivity. Qed.

Lemma includes_cons (c : ascii) (s needle : string) :
  includes (String c s) needle = String.prefix needle (String c s) || includes s needle.
Proof. reflexivity. Qed.

(** [includes] finds the needle exactly when it occurs somewhere. *)
Lemma includes_spec (s needle : string) :
  includes s needle = true <-> exists before after, s = before +:+ needle +:+ after.
Proof.
  induction s as [|c s IH];
    [rewrite includes_nil|rewrite includes_cons];
    rewrite orb_true_iff, prefix_append.
  - split.
    + intros [[rest H]|H]; [|discriminate]. exists "", rest. exact H.
    + intros ([|c before] & after & H).
      * left. exists after. exact H.
      * rewrite append_cons in H. discriminate.
  - rewrite IH. split.
    + intros [[rest H]|(before & after & H)].
      * exists "", rest. exact H.
      * exists (String c before), after. rewrite append_cons, H. reflexivity.
    + intros ([|c' before] & after & H).
      * left. exists after. exact H.
      * right. exists before, after. rewrite append_cons in H. congruence.
Qed.

Lemma indexOf_from_includes (i : Z) (s needle : string) :
  -1 < i -> (indexOf_from i s needle >? -1) = includes s needle.
Proof.
  assert (Hgt : forall j, -1 < j -> (j >? -1) = true)
    by (intros j Hj; apply Z.gtb_lt; lia).
  revert i. induction s as [|c s IH]; intros i Hi.
  - rewrite includes_nil. unfold indexOf_from.
    destruct (String.prefix needle ""); [apply Hgt; exact Hi|reflexivity].
  - rewrite includes_cons.
    change (indexOf_from i (String c s) needle)
      with (if String.prefix needle (String c s) then i
            else indexOf_from (i + 1) s needle).
    destruct (String.prefix needle (String c s)); [apply Hgt; exact Hi|].
    apply IH. lia.
Qed.

(** [s.indexOf(needle) > -1] says [s.includes(needle)]. *)
Lemma indexOf_includes (s needle : string) :
  (indexOf s needle >? -1) = includes s needle.
Proof. apply indexOf_from_includes. lia. Qed.

Lemma array_includes_In (l : list string) (x : string) :
  array_includes l x = true <-> In x l.
Proof.
  unfold array_includes. rewrite existsb_exists. split.
  - intros (y & Hy & Heq). apply String.eqb_eq in Heq. subst. exact Hy.
  - intros H. exists x. split; [exact H|apply String.eqb_refl].
Qed.

Lemma array_find_none {A : Type} (p : A -> bool) (l : list A) :
  Forall (fun x => p x = false) l -> array_find p l = None.
Proof.
  unfold array_find. induction 1 as [|x l Hx _ IH]; simpl; [reflexivity|].
  rewrite Hx. exact IH.
Qed.

End JsFacts.


(** ** The boot poll of [checkBooted] *)

Module BootPoll.
Import Device.

Lemma execs_app (tr1 tr2 : list event) :
  execs (tr1 ++ tr2) = (execs tr1 + execs tr2)%nat.
Proof.
  induction tr1 as [|e tr1 IH]; [reflexivity|].
  destruct e; simpl; rewrite IH; reflexivity.
Qed.

(** The test of the callback, [stdout.indexOf('stopped') > -1], holds when
    "stopped" occurs in the output. *)
Lemma has_stopped_spec (r : exec_result) :
  has_stopped r = true <->
  exists before after, stdout r = before +:+ "stopped" +:+ after.
Proof.
  unfold has_stopped. rewrite JsFacts.indexOf_includes. apply JsFacts.includes_spec.
Qed.

(** *** One callback *)

Lemma callback_counts (platform : string) (r : exec_result) (st : poll) :
  count (exec_callback platform r st) = count st + 1.
Proof.
  unfold exec_callback.
  destruct (indexOf (stdout r) "stopped" >? -1); [reflexivity|].
  destruct (count st + 1 >=? 20); [reflexivity|].
  destruct (error r); reflexivity.
Qed.

(** A callback issues no command: what it adds to the trace are debug
    lines. *)
Lemma callback_trace (platform : string) (r : exec_result) (st : poll) :
  exists lines,
    trace (exec_callback platform r st) = trace st ++ map Debug lines.
Proof.
  unfold exec_callback.
  destruct (indexOf (stdout r) "stopped" >? -1);
    [exists []; simpl; rewrite app_nil_r; reflexivity|].
  destruct (count st + 1 >=? 20);
    [exists []; simpl; rewrite app_nil_r; reflexivity|].
  destruct (error r), (truthy_string (stderr r)); simpl.
  - exists [stderr r]. reflexivity.
  - exists []. simpl. rewrite app_nil_r. reflexivity.
  - exists [stderr r; platform +:+ " still booting"]. rewrite <- app_assoc. reflexivity.
  - exists [platform +:+ " still booting"]. reflexivity.
Qed.

Lemma execs_debug (lines : list string) : execs (map Debug lines) = 0%nat.
Proof. induction lines; simpl; auto. Qed.

Lemma callback_polls (platform : string) (r : exec_result) (st : poll) :
  polls (exec_callback platform r st) = polls st.
Proof.
  unfold polls. destruct (callback_trace platform r st) as [lines ->].
  rewrite execs_app, execs_debug. lia.
Qed.

Lemma callback_stopped (platform : string) (r : exec_result) (st : poll) :
  has_stopped r = true ->
  interval (exec_callback platform r st) = false
  /\ settled (exec_callback platform r st) = resolve (settled st).
Proof.
  unfold has_stopped, exec_callback. intros ->. split; reflexivity.
Qed.

Lemma callback_twentieth (platform : string) (r : exec_result) (st : poll) :
  has_stopped r = false -> 20 <= count st + 1 ->
  interval (exec_callback platform r st) = false
  /\ settled (exec_callback platform r st)
     = reject (Str timeout_message) (settled st)
  /\ trace (exec_callback platform r st) = trace st.
Proof.
  unfold has_stopped, exec_callback. intros -> Hc.
  replace (count st + 1 >=? 20) with true by (symmetry; apply Z.geb_le; lia).
  repeat split.
Qed.

Lemma callback_error (platform : string) (r : exec_result) (st : poll) (e : thrown) :
  has_stopped r = false -> count st + 1 < 20 -> error r = Some e ->
  interval (exec_callback platform r st) = false
  /\ settled (exec_callback platform r st) = reject e (settled st).
Proof.
  unfold has_stopped, exec_callback. intros -> Hc ->.
  replace (count st + 1 >=? 20) with false
    by (symmetry; rewrite Z.geb_leb; apply Z.leb_gt; lia).
  split; reflexivity.
Qed.

Lemma callback_quiet (platform : string) (r : exec_result) (st : poll) :
  still_booting r -> count st + 1 < 20 ->
  interval (exec_callback platform r st) = interval st
  /\ settled (exec_callback platform r st) = settled st.
Proof.
  unfold still_booting, has_stopped, exec_callback. intros [-> ->] Hc.
  replace (count st + 1 >=? 20) with false
    by (symmetry; rewrite Z.geb_leb; apply Z.leb_gt; lia).
  split; reflexivity.
Qed.

(** The callback of a late answer, once the timer is cleared and the
    promise settled, changes neither. *)
Lemma callback_late (platform : string) (r : exec_result) (st : poll) :
  interval st = false -> settled st <> Pending ->
  interval (exec_callback platform r st) = false
  /\ settled (exec_callback platform r st) = settled st.
Proof.
  intros Hi Hs. unfold exec_callback.
  destruct (indexOf (stdout r) "stopped" >? -1); simpl;
    [split; [reflexivity|destruct (settled st); [contradiction|reflexivity..]]|].
  destruct (count st + 1 >=? 20); simpl;
    [split; [reflexivity|destruct (settled st); [contradiction|reflexivity..]]|].
  destruct (error r); simpl;
    [split; [reflexivity|destruct (settled st); [contradiction|reflexivity..]]|].
  split; [exact Hi|reflexivity].
Qed.

(** *** One firing of the timer *)

Lemma fire_state (platform : string) (st : poll) :
  count (fire platform st) = count st
  /\ interval (fire platform st) = interval st
  /\ settled (fire platform st) = settled st.
Proof. unfold fire. destruct (interval st) eqn:Hi; simpl; auto. Qed.

Lemma fire_polls (platform : string) (st : poll) :
  polls (fire platform st) = if interval st then S (polls st) else polls st.
Proof.
  unfold fire, polls. destruct (interval st); simpl; [|reflexivity].
  rewrite execs_app. simpl. lia.
Qed.

(** *** Runs *)

Lemma play_app (platform : string) (steps more : list step) (st : poll) :
  play platform (steps ++ more) st = play platform more (play platform steps st).
Proof.
  revert st. induction steps as [|s steps IH]; intros st; simpl; [reflexivity|apply IH].
Qed.

Lemma answers_app (steps more : list step) :
  answers (steps ++ more) = answers steps ++ answers more.
Proof.
  induction steps as [|[|r] steps IH]; simpl; [reflexivity|exact IH|].
  rewrite IH. reflexivity.
Qed.

Lemma answers_in_step (rs : list exec_result) : answers (in_step rs) = rs.
Proof. induction rs as [|r rs IH]; simpl; [reflexivity|rewrite IH; reflexivity]. Qed.

Lemma play_count (platform : string) (steps : list step) (st : poll) :
  count (play platform steps st) = count st + Z.of_nat (length (answers steps)).
Proof.
  revert st. induction steps as [|[|r] steps IH]; intros st; cbn [play take answers length].
  - lia.
  - rewrite IH. destruct (fire_state platform st) as [-> _]. reflexivity.
  - rewrite IH, callback_counts. lia.
Qed.

Lemma take_polling (platform : string) (s : step) (st : poll) :
  polling st -> polling (take platform s st).
Proof.
  intros [Hiff Hlt]. unfold polling. destruct s as [|r]; cbn [take].
  - destruct (fire_state platform st) as (-> & -> & ->). split; assumption.
  - destruct (interval st) eqn:Hi.
    + assert (Hp : settled st = Pending) by (apply Hiff; reflexivity).
      specialize (Hlt eq_refl). rewrite callback_counts.
      destruct (has_stopped r) eqn:Hst.
      { destruct (callback_stopped platform r st Hst) as [-> ->].
        rewrite Hp. simpl. split; [split; discriminate|discriminate]. }
      destruct (Z_lt_le_dec (count st + 1) 20) as [Hc|Hc].
      2:{ destruct (callback_twentieth platform r st Hst Hc) as (-> & -> & _).
          rewrite Hp. simpl. split; [split; discriminate|discriminate]. }
      destruct (error r) as [e|] eqn:He.
      { destruct (callback_error platform r st e Hst Hc He) as [-> ->].
        rewrite Hp. simpl. split; [split; discriminate|discriminate]. }
      destruct (callback_quiet platform r st (conj Hst He) Hc) as [-> ->].
      rewrite Hi, Hp. split; [split; reflexivity|intros _; exact Hc].
    + assert (Hs : settled st <> Pending).
      { intros Hp. apply Hiff in Hp. discriminate Hp. }
      destruct (callback_late platform r st Hi Hs) as [-> ->].
      split; [split; [discriminate|intros Hp; contradiction]|discriminate].
Qed.

Lemma play_polling (platform : string) (steps : list step) (st : poll) :
  polling st -> polling (play platform steps st).
Proof.
  revert st. induction steps as [|s steps IH]; intros st Hst; cbn [play]; [exact Hst|].
  apply IH, take_polling, Hst.
Qed.

Lemma start_polling : polling (mkPoll 0 true Pending []).
Proof. split; simpl; [split; reflexivity|lia]. Qed.

(** Once the timer is cleared, nothing that follows changes the promise or
    the timer, no command is issued, and the trace grows by debug lines
    only. *)
Lemma play_late (platform : string) (steps : list step) (st : poll) :
  interval st = false -> settled st <> Pending ->
  interval (play platform steps st) = false
  /\ settled (play platform steps st) = settled st
  /\ polls (play platform steps st) = polls st
  /\ exists lines, trace (play platform steps st) = trace st ++ map Debug lines.
Proof.
  revert st. induction steps as [|[|r] steps IH]; intros st Hi Hs; cbn [play take].
  - repeat split; try assumption. exists []. simpl. rewrite app_nil_r. reflexivity.
  - unfold fire. rewrite Hi. apply IH; assumption.
  - destruct (callback_late platform r st Hi Hs) as [Hi' Hs'].
    destruct (IH (exec_callback platform r st) Hi' ltac:(congruence))
      as (Hint & Hset & Hpolls & lines & Htrace).
    repeat split; [exact Hint|congruence|rewrite Hpolls; apply callback_polls|].
    destruct (callback_trace platform r st) as [lines' Hcb].
    exists (lines' ++ lines). rewrite Htrace, Hcb, map_app, app_assoc. reflexivity.
Qed.

(** From a state where the timer runs, the answers of a run are either all
    quiet and fewer than it takes to reach 20, and the poll is pending, or
    they hold a first decisive answer: a "stopped", the twentieth answer,
    or an error. *)
Lemma play_outcome (platform : string) (steps : list step) (st : poll) :
  interval st = true -> settled st = Pending -> count st < 20 ->
  (Forall still_booting (answers steps)
   /\ count st + Z.of_nat (length (answers steps)) < 20
   /\ settled (play platform steps st) = Pending
   /\ interval (play platform steps st) = true)
  \/ (exists pre r post,
        answers steps = pre ++ r :: post
        /\ Forall still_booting pre
        /\ count st + Z.of_nat (length pre) < 20
        /\ interval (play platform steps st) = false
        /\ ((has_stopped r = true /\ settled (play platform steps st) = Resolved)
            \/ (has_stopped r = false
                /\ 20 <= count st + Z.of_nat (length pre) + 1
                /\ settled (play platform steps st) = Rejected (Str timeout_message))
            \/ (has_stopped r = false
                /\ count st + Z.of_nat (length pre) + 1 < 20
                /\ exists e, error r = Some e
                             /\ settled (play platform steps st) = Rejected e))).
Proof.
  revert st. induction steps as [|[|r] steps IH]; intros st Hi Hs Hc.
  - left. cbn [play answers length]. repeat split; try assumption; [constructor|lia].
  - cbn [play take answers]. destruct (fire_state platform st) as (Hc' & Hi' & Hs').
    destruct (IH (fire platform st) ltac:(congruence) ltac:(congruence) ltac:(lia))
      as [H|H]; rewrite Hc' in H; [left|right]; exact H.
  - cbn [play take answers].
    assert (Hdone : forall st',
              interval st' = false -> settled st' <> Pending ->
              interval (play platform steps st') = false
              /\ settled (play platform steps st') = settled st').
    { intros st' H1 H2. destruct (play_late platform steps st' H1 H2) as (? & ? & _).
      split; assumption. }
    destruct (has_stopped r) eqn:Hst.
    { destruct (callback_stopped platform r st Hst) as [Hoff Hres].
      rewrite Hs in Hres. simpl in Hres.
      destruct (Hdone _ Hoff ltac:(congruence)) as [Hoff' Hres'].
      right. exists [], r, (answers steps).
      split; [reflexivity|]. split; [constructor|]. split; [simpl; lia|].
      split; [exact Hoff'|]. left. split; [exact Hst|congruence]. }
    destruct (Z_lt_le_dec (count st + 1) 20) as [Hlt|Hge].
    2:{ destruct (callback_twentieth platform r st Hst Hge) as (Hoff & Hrej & _).
        rewrite Hs in Hrej. simpl in Hrej.
        destruct (Hdone _ Hoff ltac:(congruence)) as [Hoff' Hrej'].
        right. exists [], r, (answers steps).
        split; [reflexivity|]. split; [constructor|]. split; [simpl; lia|].
        split; [exact Hoff'|]. right; left.
        split; [exact Hst|]. split; [simpl; lia|congruence]. }
    destruct (error r) as [e|] eqn:He.
    { destruct (callback_error platform r st e Hst Hlt He) as [Hoff Hrej].
      rewrite Hs in Hrej. simpl in Hrej.
      destruct (Hdone _ Hoff ltac:(congruence)) as [Hoff' Hrej'].
      right. exists [], r, (answers steps).
      split; [reflexivity|]. split; [constructor|]. split; [simpl; lia|].
      split; [exact Hoff'|]. right; right.
      split; [exact Hst|]. split; [simpl; lia|].
      exists e. split; [exact He|congruence]. }
    assert (Hquiet : still_booting r) by (split; assumption).
    destruct (callback_quiet platform r st Hquiet Hlt) as [Hi' Hs'].
    pose proof (callback_counts platform r st) as Hc'.
    destruct (IH (exec_callback platform r st)
                ltac:(congruence) ltac:(congruence) ltac:(lia))
      as [(Hall & Hlen & Hpend & Hrun)
         |(pre & r' & post & Heq & Hall & Hlen & Hoff & Hcases)].
    + left. repeat split; try assumption; [constructor; assumption|].
      simpl length. lia.
    + right. exists (r :: pre), r', post.
      split; [simpl; rewrite Heq; reflexivity|].
      split; [constructor; assumption|]. split; [simpl length; lia|].
      split; [exact Hoff|]. simpl length.
      replace (count st + Z.of_nat (S (length pre)) + 1)
        with (count (exec_callback platform r st) + Z.of_nat (length pre) + 1)
        by lia.
      exact Hcases.
Qed.

(** What a run of [checkBooted] ends in, by its answers. *)
Lemma checkBooted_outcome (platform : string) (steps : list step) :
  (Forall still_booting (answers steps)
   /\ (length (answers steps) < 20)%nat
   /\ settled (checkBooted platform steps) = Pending
   /\ interval (checkBooted platform steps) = true)
  \/ (exists pre r post,
        answers steps = pre ++ r :: post
        /\ Forall still_booting pre
        /\ (length pre < 20)%nat
        /\ interval (checkBooted platform steps) = false
        /\ ((has_stopped r = true /\ settled (checkBooted platform steps) = Resolved)
            \/ (has_stopped r = false /\ length pre = 19%nat
                /\ settled (checkBooted platform steps)
                   = Rejected (Str timeout_message))
            \/ (has_stopped r = false /\ (length pre < 19)%nat
                /\ exists e, error r = Some e
                             /\ settled (checkBooted platform steps) = Rejected e))).
Proof.
  unfold checkBooted.
  destruct (play_outcome platform steps (mkPoll 0 true Pending []) eq_refl eq_refl
              ltac:(simpl; lia))
    as [(Hall & Hlen & Hpend & Hrun)|(pre & r & post & Heq & Hall & Hlen & Hoff & Hcases)];
    simpl in Hlen.
  - left. repeat split; try assumption. lia.
  - right. exists pre, r, post. simpl in Hcases.
    repeat split; try assumption; [lia|].
    destruct Hcases as [H|[(H1 & H2 & H3)|(H1 & H2 & H3)]].
    + left. exact H.
    + right; left. repeat split; try assumption. lia.
    + right; right. repeat split; try assumption. lia.
Qed.

(** Quiet answers, fewer than 20, leave the poll as it started. *)
Lemma checkBooted_quiet (platform : string) (steps : list step) :
  Forall still_booting (answers steps) -> (length (answers steps) < 20)%nat ->
  interval (checkBooted platform steps) = true
  /\ settled (checkBooted platform steps) = Pending
  /\ count (checkBooted platform steps) = Z.of_nat (length (answers steps)).
Proof.
  intros Hall Hlen.
  assert (Hcount : count (checkBooted platform steps)
                   = Z.of_nat (length (answers steps)))
    by (unfold checkBooted; rewrite play_count; reflexivity).
  destruct (checkBooted_outcome platform steps)
    as [(_ & _ & Hpend & Hrun)|(pre & r & post & Heq & _ & _ & _ & Hcases)];
    [repeat split; assumption|].
  exfalso. rewrite Heq in Hall, Hlen.
  apply Forall_app in Hall as [_ Hall]. inversion Hall as [|? ? [Hns He] _]; subst.
  rewrite length_app in Hlen. simpl in Hlen.
  destruct Hcases as [[Hst _]|[(_ & H19 & _)|(_ & _ & e & Herr & _)]];
    [congruence|lia|congruence].
Qed.

(** Where the quiet answers of a list end. *)
Lemma quiet_prefix (pre pre' post post' : list exec_result) (r r' : exec_result) :
  pre ++ r :: post = pre' ++ r' :: post' ->
  Forall still_booting pre' -> (length pre < length pre')%nat -> still_booting r.
Proof.
  intros Heq Hquiet Hlt.
  assert (Hr : (pre' ++ r' :: post') !! length pre = Some r)
    by (rewrite <- Heq; apply list_lookup_middle; reflexivity).
  rewrite lookup_app_l in Hr by exact Hlt.
  exact (Forall_lookup_1 _ _ _ _ Hquiet Hr).
Qed.

(** A "stopped" after fewer than 20 answers, all quiet, resolves. *)
Lemma checkBooted_resolved_when (platform : string) (steps : list step)
    (pre post : list exec_result) (r : exec_result) :
  answers steps = pre ++ r :: post -> (length pre < 20)%nat ->
  Forall still_booting pre -> has_stopped r = true ->
  settled (checkBooted platform steps) = Resolved.
Proof.
  intros Heq Hlen Hpre Hst.
  destruct (checkBooted_outcome platform steps)
    as [(Hall & _)|(pre' & r' & post' & Heq' & Hpre' & Hlen' & _ & Hcases)].
  - rewrite Heq in Hall. apply Forall_app in Hall as [_ Hall].
    inversion Hall as [|? ? [Hns _] _]; subst. congruence.
  - rewrite Heq in Heq'.
    destruct (Nat.lt_trichotomy (length pre) (length pre')) as [Hlt|[Hsame|Hgt]].
    + destruct (quiet_prefix pre pre' post post' r r' Heq' Hpre' Hlt) as [Hns _].
      congruence.
    + assert (Hr : Some r = Some r').
      { rewrite <- (list_lookup_middle pre post r (length pre) eq_refl).
        rewrite Heq'. apply list_lookup_middle. exact Hsame. }
      injection Hr as <-.
      destruct Hcases as [[_ H]|[(Hns & _)|(Hns & _)]]; [exact H|congruence..].
    + destruct (quiet_prefix pre' pre post' post r' r (eq_sym Heq') Hpre Hgt)
        as [Hns Herr].
      destruct Hcases as [[H _]|[(_ & H19 & _)|(_ & _ & e & He & _)]];
        [congruence|lia|congruence].
Qed.

(** Quiet answers only: the twentieth rejects with the timeout message. *)
Lemma checkBooted_quiet_timeout (platform : string) (steps : list step) :
  Forall still_booting (answers steps) -> (20 <= length (answers steps))%nat ->
  settled (checkBooted platform steps) = Rejected (Str timeout_message).
Proof.
  intros Hall Hlen.
  destruct (checkBooted_outcome platform steps)
    as [(_ & Hshort & _)|(pre & r & post & Heq & _ & _ & _ & Hcases)]; [lia|].
  rewrite Heq in Hall. apply Forall_app in Hall as [_ Hall].
  inversion Hall as [|? ? [Hns He] _]; subst.
  destruct Hcases as [[Hst _]|[(_ & _ & H)|(_ & _ & e & Herr & _)]];
    [congruence|exact H|congruence].
Qed.

(** *** Commands answered before the timer fires again *)

Lemma in_step_quiet (platform : string) (rs : list exec_result) (st : poll) :
  Forall still_booting rs -> interval st = true ->
  count st + Z.of_nat (length rs) < 20 ->
  interval (play platform (in_step rs) st) = true
  /\ settled (play platform (in_step rs) st) = settled st
  /\ count (play platform (in_step rs) st) = count st + Z.of_nat (length rs)
  /\ polls (play platform (in_step rs) st) = (polls st + length rs)%nat.
Proof.
  revert st. induction rs as [|r rs IH]; intros st Hall Hi Hc.
  - simpl. repeat split; try assumption; lia.
  - inversion Hall as [|? ? Hr Hrs]; subst.
    change (in_step (r :: rs)) with (Fire :: Answer r :: in_step rs).
    cbn [play take]. simpl length in Hc |- *.
    destruct (fire_state platform st) as (Hfc & Hfi & Hfs).
    pose proof (fire_polls platform st) as Hfp. rewrite Hi in Hfp.
    destruct (callback_quiet platform r (fire platform st) Hr ltac:(lia))
      as [Hi' Hs'].
    pose proof (callback_counts platform r (fire platform st)) as Hc'.
    pose proof (callback_polls platform r (fire platform st)) as Hp'.
    destruct (IH (exec_callback platform r (fire platform st)) Hrs
                ltac:(congruence) ltac:(lia))
      as (Hint & Hset & Hcount & Hpolls).
    repeat split; [exact Hint|congruence|lia|lia].
Qed.

Lemma in_step_le_20 (platform : string) (rs : list exec_result) (st : poll) :
  polling st -> (interval st = true -> Z.of_nat (polls st) = count st) ->
  (polls st <= 20)%nat ->
  (polls (play platform (in_step rs) st) <= 20)%nat.
Proof.
  revert st. induction rs as [|r rs IH]; intros st Hst Hsame Hle; [exact Hle|].
  change (in_step (r :: rs)) with (Fire :: Answer r :: in_step rs).
  cbn [play take].
  pose proof (take_polling platform (Answer r) _
                (take_polling platform Fire st Hst)) as Hst'.
  cbn [take] in Hst'.
  pose proof (fire_polls platform st) as Hfp.
  pose proof (callback_polls platform r (fire platform st)) as Hp'.
  pose proof (callback_counts platform r (fire platform st)) as Hc'.
  destruct (fire_state platform st) as (Hfc & Hfi & Hfs).
  destruct Hst as [Hiff Hlt].
  apply IH; [exact Hst'| |].
  - intros Hrun. destruct (interval st) eqn:Hi.
    + specialize (Hsame eq_refl). lia.
    + assert (Hs : settled (fire platform st) <> Pending).
      { rewrite Hfs. intros Hp. apply Hiff in Hp. discriminate Hp. }
      destruct (callback_late platform r (fire platform st) ltac:(congruence) Hs)
        as [Hoff _].
      congruence.
  - destruct (interval st) eqn:Hi; [|lia].
    specialize (Hsame eq_refl). specialize (Hlt eq_refl). lia.
Qed.

(** The commands issued up to the answer that ends a run in step. *)
Lemma in_step_last (platform : string) (pre post : list exec_result)
    (r : exec_result) :
  Forall still_booting pre -> (length pre < 20)%nat ->
  interval (exec_callback platform r
              (fire platform (checkBooted platform (in_step pre)))) = false ->
  polls (checkBooted platform (in_step (pre ++ r :: post))) = S (length pre).
Proof.
  intros Hpre Hlen Hoff. unfold checkBooted in *.
  destruct (in_step_quiet platform pre (mkPoll 0 true Pending []) Hpre eq_refl
              ltac:(simpl; lia)) as (Hi & Hs & _ & Hp).
  unfold in_step. rewrite flat_map_app. fold (in_step pre).
  rewrite play_app. cbn [flat_map app play take]. fold (in_step post).
  set (st := play platform (in_step pre) (mkPoll 0 true Pending [])) in *.
  pose proof (polling_settled := play_polling platform (in_step pre) _ start_polling).
  fold st in polling_settled.
  pose proof (take_polling platform (Answer r) _
                (take_polling platform Fire st polling_settled)) as [Hiff _].
  cbn [take] in Hiff.
  assert (Hset : settled (exec_callback platform r (fire platform st)) <> Pending).
  { intros Hpend. apply Hiff in Hpend. congruence. }
  destruct (play_late platform (in_step post) _ Hoff Hset) as (_ & _ & -> & _).
  rewrite callback_polls, fire_polls, Hi, Hp. reflexivity.
Qed.

(** C1, as it is stated, fails: the timer issues a command every 3 seconds
    whether or not the earlier ones have been answered, and only answers
    are counted.  With two commands in flight and nothing but quiet
    answers, 21 commands have been issued when the twentieth answer rejects
    the promise. *)
Lemma checkBooted_overlapping_commands :
  ~ (forall (platform : string) (steps : list step),
        possible platform steps = true ->
        Forall still_booting (answers steps) ->
        (polls (checkBooted platform steps) <= 20)%nat).
Proof.
  intros H.
  specialize (H "emulator" (overlapping (repeat answer_running 20))).
  assert (Hpolls : polls (checkBooted "emulator"
                            (overlapping (repeat answer_running 20))) = 21%nat)
    by (vm_compute; reflexivity).
  rewrite Hpolls in H. assert (Hle : (21 <= 20)%nat); [|lia].
  apply H; [vm_compute; reflexivity|].
  vm_compute. repeat constructor.
Qed.

(** C1, amended: in every run of the boot poll, however the firings of the
    timer and the answers interleave, the promise resolves as soon as an
    answer has "stopped" in its stdout, and when no stdout contains "stopped" and
    no command fails it stays pending for 19 answers and rejects with the
    timeout message at the twentieth.  When every command is answered
    before the timer fires again, no run issues more than 20 commands: a
    run that resolves at its n-th answer has issued n, and a run that times
    out exactly 20. *)
Theorem checkBooted_resolves_or_times_out (platform : string) (steps : list step)
    (rs : list exec_result) :
  (forall r, settled (checkBooted platform steps) = Pending ->
     has_stopped r = true ->
     settled (checkBooted platform (steps ++ [Answer r])) = Resolved
     /\ interval (checkBooted platform (steps ++ [Answer r])) = false)
  /\ (forall pre r post,
        answers steps = pre ++ r :: post -> (length pre < 20)%nat ->
        Forall still_booting pre -> has_stopped r = true ->
        settled (checkBooted platform steps) = Resolved)
  /\ (Forall still_booting (answers steps) ->
        ((length (answers steps) < 20)%nat ->
           settled (checkBooted platform steps) = Pending)
        /\ ((20 <= length (answers steps))%nat ->
           settled (checkBooted platform steps) = Rejected (Str timeout_message)))
  /\ (polls (checkBooted platform (in_step rs)) <= 20)%nat
  /\ (forall pre r post,
        rs = pre ++ r :: post -> (length pre < 20)%nat ->
        Forall still_booting pre -> has_stopped r = true ->
        polls (checkBooted platform (in_step rs)) = S (length pre))
  /\ (Forall still_booting rs ->
        ((length rs < 20)%nat ->
           polls (checkBooted platform (in_step rs)) = length rs)
        /\ ((20 <= length rs)%nat ->
           polls (checkBooted platform (in_step rs)) = 20%nat)).
Proof.
  split; [|split; [|split; [|split; [|split]]]].
  - intros r Hpend Hst. unfold checkBooted in *. rewrite play_app. cbn [play take].
    destruct (callback_stopped platform r
                (play platform steps (mkPoll 0 true Pending [])) Hst) as [Hoff ->].
    rewrite Hpend. split; [reflexivity|exact Hoff].
  - intros pre r post. apply checkBooted_resolved_when.
  - intros Hall. split; intros Hlen.
    + apply (checkBooted_quiet platform steps Hall Hlen).
    + apply checkBooted_quiet_timeout; assumption.
  - apply in_step_le_20; [apply start_polling|reflexivity|unfold polls; simpl; lia].
  - intros pre r post -> Hlen Hpre Hst. apply in_step_last; [assumption..|].
    apply callback_stopped. exact Hst.
  - intros Hall. split; intros Hlen.
    + destruct (in_step_quiet platform rs (mkPoll 0 true Pending []) Hall eq_refl
                  ltac:(simpl; lia)) as (_ & _ & _ & Hp).
      exact Hp.
    + rewrite <- (firstn_skipn 19 rs) in Hall |- *.
      apply Forall_app in Hall as [Hpre Hrest].
      destruct (skipn 19 rs) as [|r post] eqn:Hsk.
      { apply (f_equal (@length _)) in Hsk. rewrite length_skipn in Hsk.
        simpl in Hsk. lia. }
      assert (Hlen19 : length (firstn 19 rs) = 19%nat)
        by (rewrite length_firstn; lia).
      rewrite in_step_last; [lia|exact Hpre|lia|].
      inversion Hrest as [|? ? [Hns _] _]; subst.
      apply callback_twentieth; [exact Hns|].
      destruct (fire_state platform (checkBooted platform (in_step (firstn 19 rs))))
        as [-> _].
      unfold checkBooted. rewrite play_count, answers_in_step, Hlen19. simpl. lia.
Qed.

Lemma checkBooted_resolves_or_times_out_witness :
  settled (checkBooted "emulator"
             (overlapping [answer_running; answer_running; answer_stopped]))
    = Resolved
  /\ settled (checkBooted "emulator" (overlapping (repeat answer_running 25)))
    = Rejected (Str timeout_message)
  /\ polls (checkBooted "emulator"
              (in_step (repeat answer_running 3 ++ [answer_stopped]))) = 4%nat
  /\ polls (checkBooted "emulator" (in_step (repeat answer_running 25))) = 20%nat.
Proof.
  split; [|split; [|split]].
  - apply (proj1 (proj2
             (checkBooted_resolves_or_times_out "emulator"
                (overlapping [answer_running; answer_running; answer_stopped]) []))
             [answer_running; answer_running] answer_stopped []).
    + reflexivity.
    + simpl; lia.
    + repeat constructor.
    + reflexivity.
  - apply (proj1 (proj2 (proj2
             (checkBooted_resolves_or_times_out "emulator"
                (overlapping (repeat answer_running 25)) [])))).
    + vm_compute. repeat constructor.
    + vm_compute. lia.
  - apply (proj1 (proj2 (proj2 (proj2 (proj2
             (checkBooted_resolves_or_times_out "emulator" []
                (repeat answer_running 3 ++ [answer_stopped]))))))
             (repeat answer_running 3) answer_stopped []).
    + reflexivity.
    + simpl; lia.
    + repeat constructor.
    + reflexivity.
  - apply (proj2 (proj2 (proj2 (proj2 (proj2
             (checkBooted_resolves_or_times_out "emulator" []
                (repeat answer_running 25))))))).
    + repeat constructor.
    + simpl; lia.
Defined.

(** C2, as it is stated, fails twice.  After 19 quiet answers a command
    error at the twentieth rejects with the timeout message, not with the
    error; and at any answer a command that reports an error while its
    stdout contains "stopped" resolves the promise. *)
Lemma checkBooted_error_on_attempt_20 :
  ~ (forall (platform : string) (before after : list step) (r : exec_result)
            (e : thrown),
        (length (answers before) < 20)%nat ->
        Forall still_booting (answers before) ->
        has_stopped r = false -> error r = Some e ->
        settled (checkBooted platform (before ++ Answer r :: after)) = Rejected e)
  /\ ~ (forall (platform : string) (before after : list step) (r : exec_result)
               (e : thrown),
        (length (answers before) < 19)%nat ->
        Forall still_booting (answers before) -> error r = Some e ->
        settled (checkBooted platform (before ++ Answer r :: after)) = Rejected e).
Proof.
  split; intros H.
  - specialize (H "emulator" (in_step (repeat answer_running 19) ++ [Fire]) []
                  answer_failed
                  (Err "Command failed: adb -e shell getprop init.svc.bootanim")).
    assert (Hrej : settled (checkBooted "emulator"
                              ((in_step (repeat answer_running 19) ++ [Fire])
                               ++ [Answer answer_failed]))
                   = Rejected (Str timeout_message)) by reflexivity.
    rewrite H in Hrej.
    + discriminate Hrej.
    + vm_compute; lia.
    + vm_compute. repeat constructor.
    + reflexivity.
    + reflexivity.
  - specialize (H "emulator" [Fire; Answer answer_running; Fire] []
                  answer_stopped_failed
                  (Err "Command failed: adb -e shell getprop init.svc.bootanim")).
    assert (Hres : settled (checkBooted "emulator"
                              ([Fire; Answer answer_running; Fire]
                               ++ [Answer answer_stopped_failed]))
                   = Resolved) by reflexivity.
    rewrite H in Hres.
    + discriminate Hres.
    + simpl; lia.
    + repeat constructor.
    + reflexivity.
Qed.

(** C2, amended: in every run of the boot poll, a command error at the n-th
    answer (n from 1 to 20), in an answer whose stdout lacks "stopped" and
    after n-1 quiet answers, ends the poll at that answer: the timer is
    cleared and no command is issued from then on, whatever follows, and the
    promise is rejected, with that error when n is at most 19 and with the
    timeout message when n is 20. *)
Theorem checkBooted_error_aborts (platform : string) (before after : list step)
    (r : exec_result) (e : thrown) :
  (length (answers before) < 20)%nat -> Forall still_booting (answers before) ->
  has_stopped r = false -> error r = Some e ->
  interval (checkBooted platform (before ++ Answer r :: after)) = false
  /\ polls (checkBooted platform (before ++ Answer r :: after))
     = polls (checkBooted platform before)
  /\ settled (checkBooted platform (before ++ Answer r :: after)) =
     Rejected (if (length (answers before) <? 19)%nat
               then e else Str timeout_message).
Proof.
  intros Hlen Hquiet Hns He.
  destruct (checkBooted_quiet platform before Hquiet Hlen) as (Hi & Hp & Hc).
  unfold checkBooted in *. rewrite play_app. cbn [play take].
  set (st := play platform before (mkPoll 0 true Pending [])) in *.
  assert (Hend : interval (exec_callback platform r st) = false
                 /\ settled (exec_callback platform r st)
                    = Rejected (if (length (answers before) <? 19)%nat
                                then e else Str timeout_message)).
  { destruct (length (answers before) <? 19)%nat eqn:Hlt.
    - apply Nat.ltb_lt in Hlt.
      destruct (callback_error platform r st e Hns ltac:(lia) He) as [Hoff ->].
      rewrite Hp. split; [exact Hoff|reflexivity].
    - apply Nat.ltb_ge in Hlt.
      destruct (callback_twentieth platform r st Hns ltac:(lia)) as (Hoff & -> & _).
      rewrite Hp. split; [exact Hoff|reflexivity]. }
  destruct Hend as [Hoff Hrej].
  destruct (play_late platform after _ Hoff ltac:(rewrite Hrej; discriminate))
    as (Hint & Hset & Hpolls & _).
  rewrite Hint, Hset, Hpolls, Hrej, callback_polls. repeat split.
Qed.

Lemma checkBooted_error_aborts_witness :
  interval (checkBooted "emulator"
              ([Fire; Fire; Answer answer_running]
               ++ Answer answer_failed :: [Fire; Answer answer_stopped])) = false
  /\ polls (checkBooted "emulator"
              ([Fire; Fire; Answer answer_running]
               ++ Answer answer_failed :: [Fire; Answer answer_stopped]))
     = polls (checkBooted "emulator" [Fire; Fire; Answer answer_running])
  /\ settled (checkBooted "emulator"
              ([Fire; Fire; Answer answer_running]
               ++ Answer answer_failed :: [Fire; Answer answer_stopped])) =
     Rejected (Err "Command failed: adb -e shell getprop init.svc.bootanim").
Proof.
  apply (checkBooted_error_aborts "emulator" [Fire; Fire; Answer answer_running]
           [Fire; Answer answer_stopped] answer_failed
           (Err "Command failed: adb -e shell getprop init.svc.bootanim")).
  - simpl; lia.
  - repeat constructor.
  - reflexivity.
  - reflexivity.
Defined.

End BootPoll.

(** ** Certificates and provisioning profiles *)

Module Lookup.
Import Device.

Lemma keep_last_snoc (p : entry -> bool) (records : list entry) (r : entry) :
  keep_last p (records ++ [r]) = if p r then Some r else keep_last p records.
Proof. unfold keep_last. rewrite fold_left_app. reflexivity. Qed.

(** A match followed by records that do not match is the one kept. *)
Lemma keep_last_found (p : entry -> bool) (before after : list entry) (r : entry) :
  p r = true -> Forall (fun x => p x = false) after ->
  keep_last p (before ++ r :: after) = Some r.
Proof.
  intros Hr Hafter. revert before.
  induction Hafter as [|x after Hx _ IH]; intros before.
  - rewrite keep_last_snoc, Hr. reflexivity.
  - replace (before ++ r :: x :: after) with ((before ++ [r]) ++ x :: after)
      by (rewrite <- app_assoc; reflexivity).
    unfold keep_last in *. rewrite fold_left_app. simpl.
    rewrite fold_left_app. simpl. rewrite Hr, Hx.
    specialize (IH before). rewrite fold_left_app in IH. simpl in IH.
    rewrite Hr in IH. exact IH.
Qed.

(** What [keep_last] returns: the last match, or nothing when no record
    matches. *)
Lemma keep_last_spec (p : entry -> bool) (records : list entry) :
  match keep_last p records with
  | Some r => exists before after,
      records = before ++ r :: after /\ p r = true
      /\ Forall (fun x => p x = false) after
  | None => Forall (fun x => p x = false) records
  end.
Proof.
  induction records as [|r records IH] using rev_ind; [constructor|].
  rewrite keep_last_snoc. destruct (p r) eqn:Hr.
  - exists records, []. repeat split; [exact Hr|constructor].
  - destruct (keep_last p records) as [found|].
    + destruct IH as (before & after & -> & Hfound & Hafter).
      exists before, (after ++ [r]). rewrite <- app_assoc. repeat split.
      * exact Hfound.
      * apply Forall_app. split; [exact Hafter|repeat constructor; exact Hr].
    + apply Forall_app. split; [exact IH|repeat constructor; exact Hr].
Qed.

Lemma keep_last_iff (p : entry -> bool) (records : list entry) (r : entry) :
  keep_last p records = Some r <->
  exists before after,
    records = before ++ r :: after /\ p r = true
    /\ Forall (fun x => p x = false) after.
Proof.
  split.
  - intros H. pose proof (keep_last_spec p records) as Hspec.
    rewrite H in Hspec. exact Hspec.
  - intros (before & after & -> & Hr & Hafter).
    apply keep_last_found; assumption.
Qed.

Lemma keep_last_none (p : entry -> bool) (records : list entry) :
  keep_last p records = None <-> Forall (fun x => p x = false) records.
Proof.
  split.
  - intros H. pose proof (keep_last_spec p records) as Hspec.
    rewrite H in Hspec. exact Hspec.
  - intros Hall. destruct (keep_last p records) as [r|] eqn:Hk; [|reflexivity].
    apply keep_last_iff in Hk as (before & after & -> & Hr & _).
    apply Forall_app in Hall as [_ Hall]. inversion Hall; congruence.
Qed.

(** [getCert] on the supported host, once ioslib has answered. *)
Lemma getCert_darwin (nd : node) (type search : string)
    (certs : gmap string (list entry)) (w : world) :
  platform nd = "darwin" ->
  getCert nd type search (Ok certs) w =
  (if negb (array_includes valid_cert_types type) then Throw (invalid_cert_type type)
   else match certs !! type with
        | None => Throw TypeError
        | Some records =>
            match keep_last (fun cert => includes (name cert) search) records with
            | None => Throw (no_cert search)
            | Some foundCert => Ok (Some foundCert)
            end
        end,
   log w [GetCerts]).
Proof.
  intros Hp. unfold getCert, call, bind, emit, throw, ret. rewrite Hp.
  change (negb ("darwin" =? "darwin")%string) with false. cbv iota beta.
  destruct (array_includes valid_cert_types type); simpl; [|reflexivity].
  destruct (certs !! type) as [records|]; [|reflexivity].
  destruct (keep_last _ records); reflexivity.
Qed.

Lemma getProfile_darwin (nd : node) (type search : string)
    (profiles : gmap string (list entry)) (w : world) :
  platform nd = "darwin" ->
  getProfile nd type search (Ok profiles) w =
  (if negb (array_includes valid_profile_types type)
   then Throw (invalid_profile_type type)
   else match profiles !! type with
        | None => Throw TypeError
        | Some records =>
            match keep_last (fun profile => String.eqb (name profile) search) records with
            | None => Throw (no_profile search)
            | Some foundProfile => Ok (Some foundProfile)
            end
        end,
   log w [GetProvisioningProfiles]).
Proof.
  intros Hp. unfold getProfile, call, bind, emit, throw, ret. rewrite Hp.
  change (negb ("darwin" =? "darwin")%string) with false. cbv iota beta.
  destruct (array_includes valid_profile_types type); simpl; [|reflexivity].
  destruct (profiles !! type) as [records|]; [|reflexivity].
  destruct (keep_last _ records); reflexivity.
Qed.

Lemma not_included (l : list string) (x : string) :
  ~ In x l -> array_includes l x = false.
Proof.
  intros H. destruct (array_includes l x) eqn:Hin; [|reflexivity].
  apply JsFacts.array_includes_In in Hin. contradiction.
Qed.

(** C3, as it is stated, fails: on the supported host a lookup with an
    invalid type has already called ioslib when it raises the error, for
    certificates and for provisioning profiles alike. *)
Lemma invalid_type_queries_ioslib :
  ~ (forall (nd : node) (type search : string) (certs : gmap string (list entry))
            (w : world),
        platform nd = "darwin" -> ~ In type valid_cert_types ->
        fst (getCert nd type search (Ok certs) w) = Throw (invalid_cert_type type)
        /\ ~ In GetCerts (w_trace (snd (getCert nd type search (Ok certs) w))))
  /\ ~ (forall (nd : node) (type search : string)
               (profiles : gmap string (list entry)) (w : world),
        platform nd = "darwin" -> ~ In type valid_profile_types ->
        fst (getProfile nd type search (Ok profiles) w)
          = Throw (invalid_profile_type type)
        /\ ~ In GetProvisioningProfiles
               (w_trace (snd (getProfile nd type search (Ok profiles) w)))).
Proof.
  split; intros H.
  - destruct (H mac "enterprise" "Jo Bloggs" sample_certs idle eq_refl) as [_ Hno].
    + simpl. intros [Heq|[Heq|[]]]; discriminate Heq.
    + apply Hno. rewrite getCert_darwin by reflexivity. simpl. left. reflexivity.
  - destruct (H mac "enterprise" "Wildcard" sample_profiles idle eq_refl) as [_ Hno].
    + simpl. intros [Heq|[Heq|[Heq|[]]]]; discriminate Heq.
    + apply Hno. rewrite getProfile_darwin by reflexivity. simpl. left. reflexivity.
Qed.

(** C3, amended: on a darwin host, a lookup with a type outside the allowed
    set calls ioslib once (getCerts for getCert, getProvisioningProfiles for
    getProfile) and nothing else, and when that call succeeds it raises the
    "is not a valid type" error of its kind, whatever the records are; when
    the call fails, the lookup fails with the error of the call. *)
Theorem invalid_type_raises_after_query (nd : node) (type search : string)
    (lib : result (gmap string (list entry))) (w : world) :
  platform nd = "darwin" ->
  (~ In type valid_cert_types ->
     getCert nd type search lib w =
     (match lib with
      | Ok _ => Throw (invalid_cert_type type)
      | Throw e => Throw e
      end, log w [GetCerts]))
  /\ (~ In type valid_profile_types ->
     getProfile nd type search lib w =
     (match lib with
      | Ok _ => Throw (invalid_profile_type type)
      | Throw e => Throw e
      end, log w [GetProvisioningProfiles])).
Proof.
  intros Hp. split; intros Hbad; apply not_included in Hbad.
  - destruct lib as [certs|e].
    + rewrite getCert_darwin, Hbad by exact Hp. reflexivity.
    + unfold getCert, call, bind, emit. rewrite Hp. reflexivity.
  - destruct lib as [profiles|e].
    + rewrite getProfile_darwin, Hbad by exact Hp. reflexivity.
    + unfold getProfile, call, bind, emit. rewrite Hp. reflexivity.
Qed.

Lemma invalid_type_raises_after_query_witness :
  getCert mac "enterprise" "Jo Bloggs" (Ok sample_certs) idle =
    (Throw (Err "Argument 'enterprise' is not a valid type of certificate"),
     log idle [GetCerts])
  /\ getProfile mac "enterprise" "Wildcard" (Ok sample_profiles) idle =
    (Throw (Err "Argument 'enterprise' is not a valid type of provisioning profile"),
     log idle [GetProvisioningProfiles]).
Proof.
  destruct (invalid_type_raises_after_query mac "enterprise" "Jo Bloggs"
              (Ok sample_certs) idle eq_refl) as [Hcert _].
  destruct (invalid_type_raises_after_query mac "enterprise" "Wildcard"
              (Ok sample_profiles) idle eq_refl) as [_ Hprofile].
  split.
  - apply Hcert. simpl. intros [Heq|[Heq|[]]]; discriminate Heq.
  - apply Hprofile. simpl. intros [Heq|[Heq|[Heq|[]]]]; discriminate Heq.
Defined.

(** C5: on the supported host, for the records ioslib holds under a valid
    type, getCert returns exactly the last record whose name contains the
    search string and getProfile exactly the last record whose name equals
    it; when no record matches, each throws its "No ... found" error. *)
Theorem lookup_returns_last_match (nd : node) (type search : string)
    (lib : gmap string (list entry)) (records : list entry) (w : world) :
  platform nd = "darwin" ->
  lib !! type = Some records ->
  (In type valid_cert_types ->
     (forall r, fst (getCert nd type search (Ok lib) w) = Ok (Some r) <->
        exists before after,
          records = before ++ r :: after
          /\ includes (name r) search = true
          /\ Forall (fun x => includes (name x) search = false) after)
     /\ (Forall (fun x => includes (name x) search = false) records ->
         fst (getCert nd type search (Ok lib) w) = Throw (no_cert search)))
  /\ (In type valid_profile_types ->
     (forall r, fst (getProfile nd type search (Ok lib) w) = Ok (Some r) <->
        exists before after,
          records = before ++ r :: after
          /\ name r = search
          /\ Forall (fun x => name x <> search) after)
     /\ (Forall (fun x => name x <> search) records ->
         fst (getProfile nd type search (Ok lib) w) = Throw (no_profile search))).
Proof.
  intros Hp Hrecords. split; intros Hvalid;
    apply JsFacts.array_includes_In in Hvalid.
  - rewrite getCert_darwin, Hvalid, Hrecords by exact Hp. simpl. split.
    + intros r.
      etransitivity;
        [|exact (keep_last_iff (fun cert => includes (name cert) search) records r)].
      destruct (keep_last _ records); simpl; split; congruence.
    + intros Hnone. apply keep_last_none in Hnone. rewrite Hnone. reflexivity.
  - rewrite getProfile_darwin, Hvalid, Hrecords by exact Hp. simpl.
    assert (Hall : forall l : list entry,
               Forall (fun x => name x <> search) l <->
               Forall (fun x => String.eqb (name x) search = false) l).
    { intros l. apply Forall_iff. intros x. symmetry. apply String.eqb_neq. }
    split.
    + intros r. setoid_rewrite Hall. setoid_rewrite <- String.eqb_eq.
      etransitivity;
        [|exact (keep_last_iff (fun profile => String.eqb (name profile) search)
                   records r)].
      destruct (keep_last _ records); simpl; split; congruence.
    + intros Hnone. apply Hall, keep_last_none in Hnone. rewrite Hnone. reflexivity.
Qed.

Lemma lookup_returns_last_match_witness :
  fst (getCert mac "developer" "Jo Bloggs" (Ok sample_certs) idle)
    = Ok (Some dev_cert_new)
  /\ fst (getProfile mac "development" "Wild" (Ok sample_profiles) idle)
    = Throw (Err "No provisioning profile found with a name matching 'Wild'").
Proof.
  destruct (lookup_returns_last_match mac "developer" "Jo Bloggs" sample_certs
              [dev_cert_old; dev_cert_new] idle eq_refl eq_refl) as [Hcert _].
  destruct (lookup_returns_last_match mac "development" "Wild" sample_profiles
              [mkEntry "Wildcard" [("uuid", "1")];
               mkEntry "Wildcard Dev" [("uuid", "2")];
               mkEntry "Wildcard" [("uuid", "3")]] idle eq_refl eq_refl)
    as [_ Hprofile].
  split.
  - apply Hcert; [simpl; auto|].
    exists [dev_cert_old], []. repeat split. constructor.
  - apply Hprofile; [simpl; auto|].
    repeat constructor; discriminate.
Defined.

(** C6: on every host other than darwin, getCert and getProfile return
    undefined for all arguments, whatever ioslib would answer: nothing is
    thrown, ioslib is not called, and the world is left as it was. *)
Theorem lookup_undefined_off_darwin (nd : node) (type search : string)
    (lib : result (gmap string (list entry))) (w : world) :
  platform nd <> "darwin" ->
  getCert nd type search lib w = (Ok None, w)
  /\ getProfile nd type search lib w = (Ok None, w).
Proof.
  intros Hp. apply String.eqb_neq in Hp.
  unfold getCert, getProfile. rewrite Hp. split; reflexivity.
Qed.

Lemma lookup_undefined_off_darwin_witness :
  getCert windows "developer" "Jo Bloggs" (Ok sample_certs) idle = (Ok None, idle)
  /\ getProfile windows "enterprise" "Wildcard" (Throw TypeError) idle
     = (Ok None, idle).
Proof.
  destruct (lookup_undefined_off_darwin windows "developer" "Jo Bloggs"
              (Ok sample_certs) idle) as [Hcert _]; [discriminate|].
  destruct (lookup_undefined_off_darwin windows "enterprise" "Wildcard"
              (Throw TypeError) idle) as [_ Hprofile]; [discriminate|].
  split; assumption.
Defined.

End Lookup.

(** ** The Appium server: start and stop *)

Module Server.
Import Appium.

Lemma log_log (w : world) (es1 es2 : list event) :
  log (log w es1) es2 = log w (es1 ++ es2).
Proof. unfold log; simpl. rewrite app_assoc. reflexivity. Qed.

Lemma exe_supported (nd : node) :
  platform nd = "darwin" \/ platform nd = "win32" ->
  exe nd = Some (if String.eqb (platform nd) "darwin" then "appium" else "appium.cmd").
Proof. unfold exe. intros [-> | ->]; reflexivity. Qed.

(** C4, as it is stated, fails: on a host that is neither darwin nor win32
    the name of the binary is left undefined, joining the path throws, and
    runAppium rejects an accepted hostname without spawning anything. *)
Lemma runAppium_localhost_without_binary :
  ~ (forall (nd : node) (modRoot hostname : string) (port : option Z) (w : world),
        In hostname validAddresses ->
        exists exe args,
          In (Spawn exe args)
             (w_trace (snd (runAppium nd modRoot (Some hostname) port w)))).
Proof.
  intros H.
  destruct (H linux "/work/app" "localhost" None idle) as (exe & args & Hin).
  - simpl. auto.
  - vm_compute in Hin. destruct Hin as [Heq|[]]. discriminate Heq.
Qed.

(** C4, amended: on a darwin or win32 host, for every hostname in
    {localhost, 0.0.0.0, 127.0.0.1} (localhost when none is given) runAppium
    spawns the Appium binary of the project and returns a pending promise;
    on every host, for every other hostname it rejects with 'Connecting to
    an External Appium Server is Not Currently Supported' and spawns
    nothing: announcing the step is its only call. *)
Theorem runAppium_local_only (nd : node) (modRoot : string)
    (hostname : option string) (port : option Z) (w : world) :
  (In (default "localhost" hostname) validAddresses ->
   platform nd = "darwin" \/ platform nd = "win32" ->
   runAppium nd modRoot hostname port w =
   (Pending,
    log w [Step ("Starting Appium Server On '" +:+ default "localhost" hostname
                   +:+ ":" +:+ pretty (default 4723 port) +:+ "'");
           Spawn (path_join nd [modRoot; "node_modules"; ".bin";
                                if String.eqb (platform nd) "darwin"
                                then "appium" else "appium.cmd"])
                 ["--log-no-colors"; "-a"; default "localhost" hostname;
                  "-p"; pretty (default 4723 port); "--show-ios-log"]]))
  /\ (~ In (default "localhost" hostname) validAddresses ->
      runAppium nd modRoot hostname port w =
      (Rejected (Str unsupported_message),
       log w [Step ("Starting Appium Server On '" +:+ default "localhost" hostname
                      +:+ ":" +:+ pretty (default 4723 port) +:+ "'")])).
Proof.
  split.
  - intros Hin Hsup. apply JsFacts.array_includes_In in Hin.
    unfold runAppium, runAppium_executor, bind, emit, ret, join.
    rewrite Hin, (exe_supported nd Hsup). simpl. rewrite log_log. reflexivity.
  - intros Hout.
    assert (Hno : array_includes validAddresses (default "localhost" hostname) = false).
    { destruct (array_includes _ _) eqn:Hin; [|reflexivity].
      apply JsFacts.array_includes_In in Hin. contradiction. }
    unfold runAppium, runAppium_executor, bind, emit, ret.
    rewrite Hno. reflexivity.
Qed.

Lemma runAppium_local_only_witness :
  runAppium mac "/work/app" (Some "0.0.0.0") None idle =
    (Pending,
     log idle [Step "Starting Appium Server On '0.0.0.0:4723'";
               Spawn "/work/app/node_modules/.bin/appium"
                     ["--log-no-colors"; "-a"; "0.0.0.0"; "-p"; "4723";
                      "--show-ios-log"]])
  /\ runAppium linux "/work/app" (Some "192.168.1.20") (Some 4725) idle =
    (Rejected (Str "Connecting to an External Appium Server is Not Currently Supported"),
     log idle [Step "Starting Appium Server On '192.168.1.20:4725'"]).
Proof.
  split.
  - apply (proj1 (runAppium_local_only mac "/work/app" (Some "0.0.0.0") None idle)).
    + simpl; auto.
    + left; reflexivity.
  - apply (proj2 (runAppium_local_only linux "/work/app" (Some "192.168.1.20")
                    (Some 4725) idle)).
    simpl. intros [Heq|[Heq|[Heq|[]]]]; discriminate Heq.
Defined.

Lemma getAppium_none (nd : node) (list : list proc) (w : world) :
  Forall (fun x => includes (cmd x) (appiumPath nd) = false) list ->
  getAppium nd (Ok list) w = (Ok None, log w [PsList]).
Proof.
  intros Hnone. unfold getAppium, call, bind, emit, ret. simpl.
  rewrite (JsFacts.array_find_none _ list Hnone). reflexivity.
Qed.

(** C8: when no entry of the process list has a command line containing the
    path of the Appium binary, quitServ throws 'PID for Appium not found!',
    and when none contains the device name, killEmu throws 'Cannot find an
    Android PID for <deviceName>'; in both cases the process list was read
    and no kill command was issued. *)
Theorem no_process_no_kill (nd : node) (deviceName : string) (list : list proc)
    (kill : result unit) (w : world) :
  (Forall (fun x => includes (cmd x) (appiumPath nd) = false) list ->
   quitServ nd (Ok list) kill w =
   (Throw (Err "PID for Appium not found!"),
    log w [Step "Stopping Appium Server"; PsList]))
  /\ (Forall (fun x => includes (cmd x) deviceName = false) list ->
      Device.killEmu nd deviceName (Ok list) kill w =
      (Throw (Err ("Cannot find an Android PID for " +:+ deviceName)),
       log w [PsList])).
Proof.
  split; intros Hnone.
  - unfold quitServ, bind at 1 2, emit at 1. rewrite getAppium_none by exact Hnone.
    unfold bind, throw. rewrite log_log. reflexivity.
  - unfold Device.killEmu, Device.getAndroidPID, try_catch, bind, call, emit, throw.
    simpl. rewrite (JsFacts.array_find_none _ list Hnone). reflexivity.
Qed.

Lemma no_process_no_kill_witness :
  quitServ mac (Ok other_processes) (Ok tt) idle =
    (Throw (Err "PID for Appium not found!"),
     log idle [Step "Stopping Appium Server"; PsList])
  /\ Device.killEmu mac "Pixel_4" (Ok other_processes) (Ok tt) idle =
    (Throw (Err "Cannot find an Android PID for Pixel_4"), log idle [PsList]).
Proof.
  split.
  - apply (proj1 (no_process_no_kill mac "Pixel_4" other_processes (Ok tt) idle)).
    repeat constructor.
  - apply (proj2 (no_process_no_kill mac "Pixel_4" other_processes (Ok tt) idle)).
    repeat constructor.
Defined.

End Server.

(** ** The WebDriver session: start and stop *)

Module Client.
Import Appium.

(** C7: with no driver in [global.driver], stopClient does nothing but
    announce itself on the debug output: it returns without throwing,
    whatever the driver would answer, makes no call to close the app, remove
    it or quit the session, and leaves [global.driver] and
    [global.webdriver] as they were. *)
Theorem stopClient_without_session (dr : driver_replies) (w : world) :
  g_driver w = None ->
  fst (stopClient dr w) = Ok tt
  /\ g_driver (snd (stopClient dr w)) = None
  /\ g_webdriver (snd (stopClient dr w)) = g_webdriver w
  /\ w_trace (snd (stopClient dr w)) =
     w_trace w ++ [Debug "Stopping WebDriver Instance"].
Proof.
  intros Hnone. unfold stopClient, bind, emit, get_driver, ret. simpl.
  rewrite Hnone. simpl. repeat split. exact Hnone.
Qed.

Lemma stopClient_without_session_witness :
  fst (stopClient (mkReplies (Throw TypeError) (Throw TypeError)
                             (Throw TypeError) (Throw TypeError)) idle) = Ok tt
  /\ g_driver (snd (stopClient (mkReplies (Throw TypeError) (Throw TypeError)
                                          (Throw TypeError) (Throw TypeError)) idle))
     = None
  /\ g_webdriver (snd (stopClient (mkReplies (Throw TypeError) (Throw TypeError)
                                             (Throw TypeError) (Throw TypeError)) idle))
     = false
  /\ w_trace (snd (stopClient (mkReplies (Throw TypeError) (Throw TypeError)
                                         (Throw TypeError) (Throw TypeError)) idle))
     = [Debug "Stopping WebDriver Instance"].
Proof.
  apply (stopClient_without_session
           (mkReplies (Throw TypeError) (Throw TypeError)
                      (Throw TypeError) (Throw TypeError)) idle).
  reflexivity.
Defined.

Lemma startClient_caps (nd : node) (capabilities : gmap string value)
    (ps : result (list proc)) (init_err : option thrown) (w : world) :
  s_caps (startClient nd capabilities ps init_err w) = start_caps capabilities.
Proof.
  unfold startClient.
  destruct ((emit (Debug "Starting WebDriver Instance") ;;;
             emit ChaiSetup ;;;
             connect nd (start_caps capabilities) ps init_err) w) as [[p|e] w'];
    reflexivity.
Qed.

(** C9: whatever else happens in the run, startClient leaves the
    capabilities object of the caller with newCommandTimeout set to 600;
    for platformName 'iOS' with automationName set to 'XCUITest'; for
    'Android' with automationName set to 'Appium' and deviceReadyTimeout set
    to 60; and with every other field as the caller supplied it (for any
    other platformName, every field but newCommandTimeout). *)
Theorem startClient_injects_capabilities (nd : node)
    (capabilities : gmap string value) (ps : result (list proc))
    (init_err : option thrown) (w : world) :
  s_caps (startClient nd capabilities ps init_err w) !! "newCommandTimeout"
    = Some (VNum 600)
  /\ (get capabilities "platformName" = VStr "iOS" ->
      s_caps (startClient nd capabilities ps init_err w) !! "automationName"
        = Some (VStr "XCUITest")
      /\ forall key, key <> "automationName" -> key <> "newCommandTimeout" ->
           s_caps (startClient nd capabilities ps init_err w) !! key
             = capabilities !! key)
  /\ (get capabilities "platformName" = VStr "Android" ->
      s_caps (startClient nd capabilities ps init_err w) !! "automationName"
        = Some (VStr "Appium")
      /\ s_caps (startClient nd capabilities ps init_err w) !! "deviceReadyTimeout"
        = Some (VNum 60)
      /\ forall key, key <> "automationName" -> key <> "deviceReadyTimeout" ->
           key <> "newCommandTimeout" ->
           s_caps (startClient nd capabilities ps init_err w) !! key
             = capabilities !! key)
  /\ (get capabilities "platformName" <> VStr "iOS" ->
      get capabilities "platformName" <> VStr "Android" ->
      forall key, key <> "newCommandTimeout" ->
        s_caps (startClient nd capabilities ps init_err w) !! key
          = capabilities !! key).
Proof.
  rewrite startClient_caps. unfold start_caps, platform_caps.
  split; [apply lookup_insert_eq|]. split; [|split].
  - intros ->. simpl. split.
    + rewrite lookup_insert_ne by discriminate. apply lookup_insert_eq.
    + intros key H1 H2. rewrite !lookup_insert_ne by congruence. reflexivity.
  - intros ->. simpl. split; [|split].
    + rewrite lookup_insert_ne by discriminate. apply lookup_insert_eq.
    + rewrite !lookup_insert_ne by discriminate. apply lookup_insert_eq.
    + intros key H1 H2 H3. rewrite !lookup_insert_ne by congruence. reflexivity.
  - intros Hios Handroid key Hkey.
    assert (Hstr : forall text, get capabilities "platformName" <> VStr text ->
                     is_str (get capabilities "platformName") text = false).
    { intros text Hne. destruct (get capabilities "platformName"); try reflexivity.
      simpl. apply String.eqb_neq. congruence. }
    rewrite (Hstr _ Hios), (Hstr _ Handroid).
    rewrite lookup_insert_ne by congruence. reflexivity.
Qed.

Lemma startClient_injects_capabilities_witness :
  s_caps (startClient mac android_caps (Ok appium_without_host) None idle)
    !! "automationName" = Some (VStr "Appium")
  /\ s_caps (startClient mac android_caps (Ok appium_without_host) None idle)
    !! "deviceReadyTimeout" = Some (VNum 60)
  /\ s_caps (startClient mac android_caps (Ok appium_without_host) None idle)
    !! "app" = Some (VStr "/work/app/build/app.apk").
Proof.
  destruct (startClient_injects_capabilities mac android_caps
              (Ok appium_without_host) None idle) as (_ & _ & Handroid & _).
  destruct (Handroid eq_refl) as (Hname & Hready & Hframe).
  split; [exact Hname|]. split; [exact Hready|].
  rewrite Hframe by discriminate. reflexivity.
Defined.

(** C10: when the Appium process is found and its command line yields an
    undefined host or port, the promise of startClient is rejected with
    'Cannot locate Appium server details' whatever [driver.init] reports
    later, and still the executor runs to its end: the driver is created
    with the undefined field, [global.driver] and [global.webdriver] are
    assigned, the custom commands are loaded and [driver.init] is called
    with the capabilities. *)
Theorem startClient_rejects_and_continues (nd : node)
    (capabilities : gmap string value) (list : list proc) (info : proc)
    (init_err : option thrown) (w : world) :
  array_find (fun x => includes (cmd x) (appiumPath nd)) list = Some info ->
  arg_after "-a" info = None \/ arg_after "-p" info = None ->
  s_promise (startClient nd capabilities (Ok list) init_err w)
    = Rejected (Str "Cannot locate Appium server details")
  /\ s_executor (startClient nd capabilities (Ok list) init_err w) = Ok tt
  /\ g_driver (s_world (startClient nd capabilities (Ok list) init_err w))
    = Some (mkDriver (arg_after "-a" info) (arg_after "-p" info))
  /\ g_webdriver (s_world (startClient nd capabilities (Ok list) init_err w)) = true
  /\ w_trace (s_world (startClient nd capabilities (Ok list) init_err w))
    = w_trace w ++
      [Debug "Starting WebDriver Instance"; ChaiSetup; PsList;
       PromiseChainRemote (arg_after "-a" info) (arg_after "-p" info);
       LoadDriverCommands; Init (start_caps capabilities)].
Proof.
  intros Hfound Hundef.
  assert (Hrej : match arg_after "-a" info, arg_after "-p" info with
                 | Some _, Some _ => Pending
                 | _, _ => reject (Str "Cannot locate Appium server details") Pending
                 end = Rejected (Str "Cannot locate Appium server details")).
  { destruct Hundef as [-> | ->]; [reflexivity|].
    destruct (arg_after "-a" info); reflexivity. }
  unfold startClient, connect, getAppium, call, bind, emit, ret,
    set_driver, set_webdriver.
  rewrite Hfound, Hrej.
  set (host := arg_after "-a" info). set (port := arg_after "-p" info).
  simpl. repeat split.
  - destruct init_err; reflexivity.
  - rewrite <- !app_assoc. reflexivity.
Qed.

Lemma startClient_rejects_and_continues_witness :
  s_promise (startClient mac android_caps (Ok appium_without_host) None idle)
    = Rejected (Str "Cannot locate Appium server details")
  /\ g_driver (s_world (startClient mac android_caps (Ok appium_without_host)
                          None idle))
    = Some (mkDriver None (Some "4723"))
  /\ In (Init (start_caps android_caps))
        (w_trace (s_world (startClient mac android_caps (Ok appium_without_host)
                             None idle))).
Proof.
  destruct (startClient_rejects_and_continues mac android_caps appium_without_host
              (mkProc 977 "node /work/app/node_modules/.bin/appium --log-no-colors -p 4723 -a")
              None idle eq_refl (or_introl eq_refl))
    as (Hpromise & _ & Hdriver & _ & Htrace).
  split; [exact Hpromise|]. split; [exact Hdriver|].
  rewrite Htrace. simpl. auto 10.
Defined.

End Client.

(** * Further properties *)

(** ** The boot poll: what every run ends in *)

Module BootPollRuns.
Import Device BootPoll.

(** X1: in every run of the boot poll the interval timer is cleared exactly
    when the promise has settled: no run leaves the timer firing behind a
    settled promise, and none stops polling while the promise is pending. *)
Theorem checkBooted_timer_cleared_iff_settled (platform : string)
    (steps : list step) :
  interval (checkBooted platform steps) = false
  <-> settled (checkBooted platform steps) <> Pending.
Proof.
  destruct (play_polling platform steps _ start_polling) as [Hiff _].
  fold (checkBooted platform steps) in Hiff.
  destruct (interval (checkBooted platform steps)).
  - split; [discriminate|]. intros H. exfalso. apply H, Hiff. reflexivity.
  - split; [|reflexivity]. intros _ H. apply Hiff in H. discriminate H.
Qed.

Lemma callback_after_20 (platform : string) (r : exec_result) (st : poll) :
  20 <= count st + 1 -> trace (exec_callback platform r st) = trace st.
Proof.
  intros Hc. unfold exec_callback.
  destruct (indexOf (stdout r) "stopped" >? -1); [reflexivity|].
  replace (count st + 1 >=? 20) with true by (symmetry; apply Z.geb_le; lia).
  reflexivity.
Qed.

Lemma play_after_20 (platform : string) (steps : list step) (st : poll) :
  interval st = false -> settled st <> Pending -> 20 <= count st ->
  trace (play platform steps st) = trace st.
Proof.
  revert st. induction steps as [|[|r] steps IH]; intros st Hi Hs Hc;
    cbn [play take]; [reflexivity| |].
  - unfold fire. rewrite Hi. apply IH; assumption.
  - destruct (callback_late platform r st Hi Hs) as [Hi' Hs'].
    rewrite IH; [apply callback_after_20; lia|exact Hi'|congruence|].
    rewrite callback_counts. lia.
Qed.

(** X2: a run of the boot poll is decided by its first 20 answers: once 20
    answers have come the promise has settled, and nothing that follows
    changes the promise, the timer or the calls made. *)
Theorem checkBooted_first_20_answers (platform : string) (steps more : list step) :
  (20 <= length (answers steps))%nat ->
  settled (checkBooted platform steps) <> Pending
  /\ settled (checkBooted platform (steps ++ more))
     = settled (checkBooted platform steps)
  /\ interval (checkBooted platform (steps ++ more)) = false
  /\ trace (checkBooted platform (steps ++ more))
     = trace (checkBooted platform steps).
Proof.
  intros Hlen.
  assert (Hset : settled (checkBooted platform steps) <> Pending).
  { destruct (checkBooted_outcome platform steps)
      as [(_ & Hshort & _)|(pre & r & post & _ & _ & _ & _ & Hcases)]; [lia|].
    destruct Hcases as [[_ ->]|[(_ & _ & ->)|(_ & _ & e & _ & ->)]]; discriminate. }
  assert (Hoff : interval (checkBooted platform steps) = false)
    by (apply checkBooted_timer_cleared_iff_settled; exact Hset).
  assert (Hcount : 20 <= count (checkBooted platform steps))
    by (unfold checkBooted; rewrite play_count; simpl; lia).
  split; [exact Hset|]. unfold checkBooted in *. rewrite play_app.
  destruct (play_late platform more _ Hoff Hset) as (Hint & Hsame & _).
  split; [exact Hsame|]. split; [exact Hint|].
  apply play_after_20; assumption.
Qed.

Lemma checkBooted_first_20_answers_witness :
  settled (checkBooted "emulator" (overlapping (repeat answer_running 20)))
    <> Pending
  /\ settled (checkBooted "emulator"
                (overlapping (repeat answer_running 20)
                 ++ [Answer answer_stopped; Answer answer_running]))
     = settled (checkBooted "emulator" (overlapping (repeat answer_running 20)))
  /\ interval (checkBooted "emulator"
                (overlapping (repeat answer_running 20)
                 ++ [Answer answer_stopped; Answer answer_running])) = false
  /\ trace (checkBooted "emulator"
                (overlapping (repeat answer_running 20)
                 ++ [Answer answer_stopped; Answer answer_running]))
     = trace (checkBooted "emulator" (overlapping (repeat answer_running 20))).
Proof.
  apply (checkBooted_first_20_answers "emulator"
           (overlapping (repeat answer_running 20))
           [Answer answer_stopped; Answer answer_running]).
  vm_compute. lia.
Defined.

(** X3: the boot poll resolves exactly when some answer among the first 20
    contains "stopped" in its stdout and every answer before it was quiet
    (no "stopped", no error); it is pending exactly when fewer than 20
    answers have come and all of them were quiet. *)
Theorem checkBooted_resolved_iff (platform : string) (steps : list step) :
  (settled (checkBooted platform steps) = Resolved <->
   exists pre r post,
     answers steps = pre ++ r :: post /\ (length pre < 20)%nat
     /\ Forall still_booting pre /\ has_stopped r = true)
  /\ (settled (checkBooted platform steps) = Pending <->
      (length (answers steps) < 20)%nat /\ Forall still_booting (answers steps)).
Proof.
  split; split.
  - intros Hres.
    destruct (checkBooted_outcome platform steps)
      as [(_ & _ & Hpend & _)|(pre & r & post & Heq & Hall & Hlen & _ & Hcases)];
      [congruence|].
    destruct Hcases as [[Hst _]|[(_ & _ & Hrej)|(_ & _ & e & _ & Hrej)]];
      try congruence.
    exists pre, r, post. repeat split; assumption.
  - intros (pre & r & post & Heq & Hlen & Hpre & Hst).
    exact (checkBooted_resolved_when platform steps pre post r Heq Hlen Hpre Hst).
  - intros Hpend.
    destruct (checkBooted_outcome platform steps)
      as [(Hall & Hlen & _)|(pre & r & post & _ & _ & _ & _ & Hcases)];
      [split; assumption|].
    destruct Hcases as [[_ H]|[(_ & _ & H)|(_ & _ & e & _ & H)]]; congruence.
  - intros [Hlen Hall]. apply (checkBooted_quiet platform steps Hall Hlen).
Qed.

(** X4: once the promise of the boot poll has settled, nothing that follows
    changes it or sets the timer again, and no further command is issued;
    the answers of commands issued before still come and are logged, so the
    trace can grow, by debug lines only. *)
Theorem checkBooted_settled_is_final (platform : string)
    (steps more : list step) :
  settled (checkBooted platform steps) <> Pending ->
  settled (checkBooted platform (steps ++ more))
    = settled (checkBooted platform steps)
  /\ interval (checkBooted platform (steps ++ more)) = false
  /\ polls (checkBooted platform (steps ++ more))
     = polls (checkBooted platform steps)
  /\ exists lines,
       trace (checkBooted platform (steps ++ more))
       = trace (checkBooted platform steps) ++ map Debug lines.
Proof.
  intros Hset.
  assert (Hoff : interval (checkBooted platform steps) = false)
    by (apply checkBooted_timer_cleared_iff_settled; exact Hset).
  unfold checkBooted in *. rewrite play_app.
  destruct (play_late platform more _ Hoff Hset) as (Hint & Hsame & Hpolls & Hlines).
  repeat split; assumption.
Qed.

Lemma checkBooted_settled_is_final_witness :
  settled (checkBooted "genymotion"
             ([Fire; Fire; Answer answer_stopped] ++ [Answer answer_running; Fire]))
    = settled (checkBooted "genymotion" [Fire; Fire; Answer answer_stopped])
  /\ interval (checkBooted "genymotion"
             ([Fire; Fire; Answer answer_stopped] ++ [Answer answer_running; Fire]))
    = false
  /\ polls (checkBooted "genymotion"
             ([Fire; Fire; Answer answer_stopped] ++ [Answer answer_running; Fire]))
    = polls (checkBooted "genymotion" [Fire; Fire; Answer answer_stopped])
  /\ exists lines,
       trace (checkBooted "genymotion"
                ([Fire; Fire; Answer answer_stopped] ++ [Answer answer_running; Fire]))
       = trace (checkBooted "genymotion" [Fire; Fire; Answer answer_stopped])
         ++ map Debug lines.
Proof.
  apply (checkBooted_settled_is_final "genymotion"
           [Fire; Fire; Answer answer_stopped] [Answer answer_running; Fire]).
  discriminate.
Defined.

End BootPollRuns.


(** ** Process lookup, kill and launch *)

Module Processes.
Import Appium Device.

(** [find] returns the first entry that passes the test. *)
Lemma array_find_first {A : Type} (f : A -> bool) (before after : list A) (x : A) :
  Forall (fun y => f y = false) before -> f x = true ->
  array_find f (before ++ x :: after) = Some x.
Proof.
  unfold array_find. intros Hbefore Hx.
  induction Hbefore as [|y before Hy _ IH]; simpl; [rewrite Hx|rewrite Hy]; auto.
Qed.

Lemma includes_empty (s : string) : includes s "" = true.
Proof. destruct s; reflexivity. Qed.

Lemma getAndroidPID_found (deviceName : string) (list : list proc) (p : proc)
    (w : world) :
  array_find (fun x => includes (cmd x) deviceName) list = Some p ->
  getAndroidPID deviceName (Ok list) w = (Ok (pid p), log w [PsList]).
Proof.
  intros Hfound. unfold getAndroidPID, try_catch, call, bind, emit, ret.
  rewrite Hfound. reflexivity.
Qed.

Lemma getAndroidPID_missing (deviceName : string) (ps : result (list proc))
    (w : world) :
  (forall list, ps = Ok list ->
     array_find (fun x => includes (cmd x) deviceName) list = None) ->
  getAndroidPID deviceName ps w =
  (Throw (Err ("Cannot find an Android PID for " +:+ deviceName)), log w [PsList]).
Proof.
  intros Hnone. unfold getAndroidPID, try_catch, call, bind, emit, ret, throw.
  destruct ps as [list|e]; [rewrite (Hnone list eq_refl)|]; reflexivity.
Qed.

Lemma getAppium_found (nd : node) (list : list proc) (p : proc) (w : world) :
  array_find (fun x => includes (cmd x) (appiumPath nd)) list = Some p ->
  getAppium nd (Ok list) w = (Ok (Some p), log w [PsList]).
Proof.
  intros Hfound. unfold getAppium, call, bind, emit, ret. rewrite Hfound. reflexivity.
Qed.

(** X5: quitServ stops the first process of the list whose command line
    contains the path of the Appium binary, and only that one: it issues one
    kill command for its PID, [taskkill /F /PID] on win32 and [kill -9] on
    every other host, ends with the result of that command, and reports the
    step as finished only when the command succeeded. *)
Theorem quitServ_kills_first_match (nd : node) (before after : list proc)
    (p : proc) (kill : result unit) (w : world) :
  Forall (fun x => includes (cmd x) (appiumPath nd) = false) before ->
  includes (cmd p) (appiumPath nd) = true ->
  quitServ nd (Ok (before ++ p :: after)) kill w =
  (kill,
   log w ([Step "Stopping Appium Server"; PsList;
           Debug ("Found Appium server PID: " +:+ pretty (pid p));
           Debug (if String.eqb (platform nd) "win32"
                  then "Detected Windows, killing Appium server with taskkill command"
                  else "Presuming UNIX, killing Appium server with kill command");
           ExecSync ((if String.eqb (platform nd) "win32"
                      then "taskkill /F /PID " else "kill -9 ")
                     +:+ pretty (pid p))]
          ++ match kill with Ok _ => [Finish] | Throw _ => [] end)).
Proof.
  intros Hbefore Hp.
  pose proof (array_find_first _ before after p Hbefore Hp) as Hfound.
  unfold quitServ, bind at 1 2, emit at 1.
  rewrite (getAppium_found nd _ p _ Hfound).
  unfold call, bind, emit, ret, log; simpl.
  destruct (String.eqb (platform nd) "win32"), kill as [[]|e]; simpl;
    rewrite <- ?app_assoc; reflexivity.
Qed.

Lemma quitServ_kills_first_match_witness :
  quitServ windows
    (Ok ([mkProc 4 "System"]
         ++ mkProc 731 "node C:\app\node_modules\.bin\appium -a localhost -p 4723"
         :: [mkProc 950 "node node_modules\.bin\appium -p 4800"]))
    (Ok tt) idle
  = (Ok tt,
     log idle ([Step "Stopping Appium Server"; PsList;
                Debug "Found Appium server PID: 731";
                Debug "Detected Windows, killing Appium server with taskkill command";
                ExecSync "taskkill /F /PID 731"] ++ [Finish])).
Proof.
  apply (quitServ_kills_first_match windows [mkProc 4 "System"]
           [mkProc 950 "node node_modules\.bin\appium -p 4800"]
           (mkProc 731 "node C:\app\node_modules\.bin\appium -a localhost -p 4723")
           (Ok tt) idle).
  - repeat constructor.
  - reflexivity.
Defined.

(** X6: killEmu stops the first process of the list whose command line
    contains the device name, and only that one: one kill command for its
    PID, [taskkill /F /PID] on win32 and [kill -9] elsewhere, whose result
    is the result of killEmu. *)
Theorem killEmu_kills_first_match (nd : node) (deviceName : string)
    (before after : list proc) (p : proc) (kill : result unit) (w : world) :
  Forall (fun x => includes (cmd x) deviceName = false) before ->
  includes (cmd p) deviceName = true ->
  killEmu nd deviceName (Ok (before ++ p :: after)) kill w =
  (kill,
   log w [PsList;
          Debug ("Found Android emulator PID: " +:+ pretty (pid p));
          Debug (if String.eqb (platform nd) "win32"
                 then "Detected Windows, killing emulator with taskkill command"
                 else "Presuming UNIX, killing emulator with kill command");
          ExecSync ((if String.eqb (platform nd) "win32"
                     then "taskkill /F /PID " else "kill -9 ")
                    +:+ pretty (pid p))]).
Proof.
  intros Hbefore Hp.
  pose proof (array_find_first _ before after p Hbefore Hp) as Hfound.
  unfold killEmu, bind at 1.
  rewrite (getAndroidPID_found deviceName _ p _ Hfound).
  unfold call, bind, emit, ret, log; simpl.
  destruct (String.eqb (platform nd) "win32"), kill as [[]|e]; simpl;
    rewrite <- ?app_assoc; reflexivity.
Qed.

Lemma killEmu_kills_first_match_witness :
  killEmu mac "Pixel_4"
    (Ok ([mkProc 1 "/sbin/launchd"]
         ++ mkProc 612 "/sdk/emulator/qemu-system-x86_64 -avd Pixel_4 -wipe-data"
         :: []))
    (Ok tt) idle
  = (Ok tt,
     log idle [PsList; Debug "Found Android emulator PID: 612";
               Debug "Presuming UNIX, killing emulator with kill command";
               ExecSync "kill -9 612"]).
Proof.
  apply (killEmu_kills_first_match mac "Pixel_4" [mkProc 1 "/sbin/launchd"] []
           (mkProc 612 "/sdk/emulator/qemu-system-x86_64 -avd Pixel_4 -wipe-data")
           (Ok tt) idle).
  - repeat constructor.
  - reflexivity.
Defined.

(** X7: when the process list cannot be read, quitServ fails with the error
    of the listing, while killEmu hides it behind 'Cannot find an Android PID
    for <deviceName>'; neither issues a kill command. *)
Theorem process_list_failure (nd : node) (deviceName : string) (e : thrown)
    (kill : result unit) (w : world) :
  quitServ nd (Throw e) kill w =
    (Throw e, log w [Step "Stopping Appium Server"; PsList])
  /\ killEmu nd deviceName (Throw e) kill w =
    (Throw (Err ("Cannot find an Android PID for " +:+ deviceName)),
     log w [PsList]).
Proof.
  split.
  - unfold quitServ, getAppium, call, bind, emit, log; simpl.
    rewrite <- app_assoc. reflexivity.
  - unfold killEmu, bind at 1.
    rewrite getAndroidPID_missing by discriminate. reflexivity.
Qed.

(** X8: every command line contains the empty string, so with an empty
    device name killEmu kills whatever process comes first in the list. *)
Theorem killEmu_empty_name_kills_first_process (nd : node) (p : proc)
    (rest : list proc) (kill : result unit) (w : world) :
  killEmu nd "" (Ok (p :: rest)) kill w =
  (kill,
   log w [PsList;
          Debug ("Found Android emulator PID: " +:+ pretty (pid p));
          Debug (if String.eqb (platform nd) "win32"
                 then "Detected Windows, killing emulator with taskkill command"
                 else "Presuming UNIX, killing emulator with kill command");
          ExecSync ((if String.eqb (platform nd) "win32"
                     then "taskkill /F /PID " else "kill -9 ")
                    +:+ pretty (pid p))]).
Proof.
  unfold killEmu, bind at 1.
  rewrite (getAndroidPID_found "" (p :: rest) p w)
    by (unfold array_find; simpl; rewrite includes_empty; reflexivity).
  unfold call, bind, emit, ret, log; simpl.
  destruct (String.eqb (platform nd) "win32"), kill as [[]|e]; simpl;
    rewrite <- ?app_assoc; reflexivity.
Qed.

End Processes.

(** ** Launching an emulator *)

Module Launch.
Import Device BootPoll Processes.

(** X9: when some process already runs with the device name in its command
    line, launchEmu and launchGeny return at once: they read the process
    list, report the device as booted, spawn nothing and poll nothing,
    whatever ANDROID_HOME is and whatever the polls would answer. *)
Theorem launch_when_already_running (nd : node) (android_home : option string)
    (deviceName : string) (before after : list proc) (p : proc)
    (steps : list step) (w : world) :
  Forall (fun x => includes (cmd x) deviceName = false) before ->
  includes (cmd p) deviceName = true ->
  launchEmu nd android_home deviceName (Ok (before ++ p :: after)) steps w =
    (Some (Ok tt),
     log w [Debug "Checking if emulator is already booted"; PsList;
            Debug (deviceName +:+ " is booted")])
  /\ launchGeny nd deviceName (Ok (before ++ p :: after)) steps w =
    (Some (Ok tt),
     log w [Debug "Checking if Genymotion emulator is already booted"; PsList;
            Debug (deviceName +:+ " is booted")]).
Proof.
  intros Hbefore Hp.
  pose proof (array_find_first _ before after p Hbefore Hp) as Hfound.
  unfold launchEmu, launchGeny, bind, emit.
  rewrite !(getAndroidPID_found deviceName _ p _ Hfound).
  unfold log; simpl. rewrite <- !app_assoc. split; reflexivity.
Qed.

Lemma launch_when_already_running_witness :
  launchEmu mac None "Pixel_4"
    (Ok ([mkProc 1 "/sbin/launchd"]
         ++ mkProc 612 "/sdk/emulator/qemu-system-x86_64 -avd Pixel_4" :: []))
    [Fire; Answer answer_failed] idle
  = (Some (Ok tt),
     log idle [Debug "Checking if emulator is already booted"; PsList;
               Debug "Pixel_4 is booted"]).
Proof.
  apply (proj1 (launch_when_already_running mac None "Pixel_4"
                  [mkProc 1 "/sbin/launchd"] []
                  (mkProc 612 "/sdk/emulator/qemu-system-x86_64 -avd Pixel_4")
                  [Fire; Answer answer_failed] idle
                  ltac:(repeat constructor) eq_refl)).
Defined.

(** What a poll does next does not depend on the calls it has made. *)
Lemma play_trace (platform : string) (steps : list step) (st : poll) :
  count (play platform steps st)
    = count (play platform steps (mkPoll (count st) (interval st) (settled st) []))
  /\ interval (play platform steps st)
    = interval (play platform steps (mkPoll (count st) (interval st) (settled st) []))
  /\ settled (play platform steps st)
    = settled (play platform steps (mkPoll (count st) (interval st) (settled st) []))
  /\ trace (play platform steps st) = trace st ++ calls platform steps st.
Proof.
  unfold calls. destruct st as [c i p tr]. simpl.
  revert c i p tr. induction steps as [|s steps IH]; intros c i p tr.
  - simpl. rewrite app_nil_r. repeat split.
  - cbn [play].
    assert (Hstep : exists c' i' p' new,
              take platform s (mkPoll c i p tr) = mkPoll c' i' p' (tr ++ new)
              /\ take platform s (mkPoll c i p []) = mkPoll c' i' p' new).
    { destruct s as [|r]; cbn [take].
      - unfold fire; simpl. destruct i; simpl.
        + exists c, true, p, [Exec (boot_cmd platform)]. split; reflexivity.
        + exists c, false, p, []. rewrite app_nil_r. split; reflexivity.
      - unfold exec_callback; simpl.
        destruct (indexOf (stdout r) "stopped" >? -1);
          [eexists _, _, _, []; rewrite app_nil_r; split; reflexivity|].
        destruct (c + 1 >=? 20);
          [eexists _, _, _, []; rewrite app_nil_r; split; reflexivity|].
        destruct (error r), (truthy_string (stderr r)); simpl.
        + eexists _, _, _, [Debug (stderr r)]. split; reflexivity.
        + eexists _, _, _, []. rewrite app_nil_r. split; reflexivity.
        + eexists _, _, _, [Debug (stderr r); Debug (platform +:+ " still booting")].
          rewrite <- app_assoc. split; reflexivity.
        + eexists _, _, _, [Debug (platform +:+ " still booting")].
          split; reflexivity. }
    destruct Hstep as (c' & i' & p' & new & -> & ->).
    destruct (IH c' i' p' (tr ++ new)) as (Hc & Hi & Hp & Ht).
    destruct (IH c' i' p' new) as (Hc' & Hi' & Hp' & Ht').
    rewrite Hc, Hi, Hp, Ht, Hc', Hi', Hp', Ht'. rewrite <- app_assoc. repeat split.
Qed.

Lemma settle_none (platform : string) (steps : list step) (st : poll) :
  settle platform steps st = None -> settled st = Pending ->
  settled (play platform steps st) = Pending.
Proof.
  revert st. induction steps as [|s steps IH]; intros st Hnone Hp; [exact Hp|].
  cbn [settle play] in *.
  destruct (settled (take platform s st)) eqn:Hs; [|discriminate..].
  apply IH; assumption.
Qed.

Lemma settle_some (platform : string) (steps late : list step) (st st' : poll) :
  settle platform steps st = Some (st', late) -> polling st ->
  settled st' <> Pending /\ polling st'
  /\ play platform steps st = play platform late st'.
Proof.
  revert st. induction steps as [|s steps IH]; intros st Hsome Hst; [discriminate|].
  cbn [settle play] in *.
  pose proof (take_polling platform s st Hst) as Hst'.
  destruct (settled (take platform s st)) eqn:Hs.
  - apply IH; assumption.
  - injection Hsome as <- <-.
    split; [congruence|]. split; [exact Hst'|reflexivity].
  - injection Hsome as <- <-.
    split; [congruence|]. split; [exact Hst'|reflexivity].
Qed.

(** What the caller of a poll sees: the result follows the promise of the
    poll, and the calls recorded are those of the poll with, when it
    resolved, the line of the caller among them. *)
Lemma await_booted_spec (platform deviceName : string) (steps : list step)
    (w : world) :
  fst (await_booted platform deviceName steps w)
    = match settled (checkBooted platform steps) with
      | Resolved => Some (Ok tt)
      | Rejected e => Some (Throw e)
      | Pending => None
      end
  /\ exists events,
       snd (await_booted platform deviceName steps w) = log w events
       /\ execs events = polls (checkBooted platform steps).
Proof.
  unfold await_booted, checkBooted.
  destruct (settle platform steps (mkPoll 0 true Pending [])) as [[st late]|] eqn:Hs.
  - destruct (settle_some platform steps late _ st Hs start_polling)
      as (Hset & [Hiff _] & Hplay).
    assert (Hoff : interval st = false).
    { destruct (interval st); [|reflexivity]. exfalso. apply Hset, Hiff. reflexivity. }
    destruct (play_late platform late st Hoff Hset) as (_ & Hsame & Hpolls & _).
    destruct (play_trace platform late st) as (_ & _ & _ & Htrace).
    rewrite Hplay, Hsame.
    assert (Hexecs : execs (trace st ++ calls platform late st) = polls st).
    { rewrite <- Htrace. exact Hpolls. }
    unfold polls. rewrite Htrace.
    destruct (settled st) as [| |e]; [contradiction| |]; simpl; split;
      try reflexivity; eexists; (split; [reflexivity|]).
    + rewrite !execs_app in *. simpl. lia.
    + reflexivity.
  - rewrite (settle_none platform steps _ Hs eq_refl). simpl.
    split; [reflexivity|]. eexists. split; reflexivity.
Qed.

Lemma launchEmu_missing (nd : node) (home deviceName : string)
    (ps : result (list proc)) (steps : list step) (w : world) :
  (forall list, ps = Ok list ->
     Forall (fun x => includes (cmd x) deviceName = false) list) ->
  launchEmu nd (Some home) deviceName ps steps w =
  await_booted "emulator" deviceName steps
    (log w [Debug "Checking if emulator is already booted"; PsList;
            Debug ("Can't find a running instance, launching Android emulator '"
                     +:+ deviceName +:+ "'");
            Spawn (path_join nd [home; "emulator"; "emulator"])
                  ["-avd"; deviceName; "-wipe-data"]]).
Proof.
  intros Hnone.
  assert (Hmiss : forall list, ps = Ok list ->
            array_find (fun x => includes (cmd x) deviceName) list = None).
  { intros list Hps. apply JsFacts.array_find_none. apply Hnone. exact Hps. }
  unfold launchEmu, bind at 1, emit at 1.
  rewrite (getAndroidPID_missing deviceName ps _ Hmiss).
  unfold join, bind, emit; simpl. f_equal.
  unfold log; simpl. rewrite <- !app_assoc. reflexivity.
Qed.

Lemma launchGeny_missing (nd : node) (deviceName : string)
    (ps : result (list proc)) (steps : list step) (w : world) :
  (forall list, ps = Ok list ->
     Forall (fun x => includes (cmd x) deviceName = false) list) ->
  launchGeny nd deviceName ps steps w =
  await_booted "genymotion" deviceName steps
    (log w [Debug "Checking if Genymotion emulator is already booted"; PsList;
            Debug ("Can't find a running instance, booting Genymotion emulator '"
                     +:+ deviceName +:+ "'");
            Spawn (if String.eqb (platform nd) "darwin"
                   then path_join nd ["/"; "Applications"; "Genymotion.app";
                                      "Contents"; "MacOS"; "player.app";
                                      "Contents"; "MacOS"; "player"]
                   else path_join nd [])
                  ["--vm-name"; deviceName]]).
Proof.
  intros Hnone.
  assert (Hmiss : forall list, ps = Ok list ->
            array_find (fun x => includes (cmd x) deviceName) list = None).
  { intros list Hps. apply JsFacts.array_find_none. apply Hnone. exact Hps. }
  unfold launchGeny, bind at 1, emit at 1.
  rewrite (getAndroidPID_missing deviceName ps _ Hmiss).
  unfold bind, emit; simpl. f_equal.
  unfold log; simpl. rewrite <- !app_assoc. reflexivity.
Qed.

(** X10: when no process carries the device name, or the process list
    cannot be read, launchEmu with ANDROID_HOME set spawns the emulator
    binary under it with [-avd <deviceName> -wipe-data] and then waits for
    the boot poll: it returns normally exactly when the poll resolves, fails
    with the reason of the poll when it rejects, and is still waiting only
    while the poll is pending, which it never is once 20 answers have come.
    The calls that follow the spawn hold every adb command of the poll. *)
Theorem launchEmu_spawns_then_polls (nd : node) (home deviceName : string)
    (ps : result (list proc)) (steps : list step) (w : world) :
  (forall list, ps = Ok list ->
     Forall (fun x => includes (cmd x) deviceName = false) list) ->
  fst (launchEmu nd (Some home) deviceName ps steps w)
    = match settled (checkBooted "emulator" steps) with
      | Resolved => Some (Ok tt)
      | Rejected e => Some (Throw e)
      | Pending => None
      end
  /\ (exists events,
        snd (launchEmu nd (Some home) deviceName ps steps w)
        = log w ([Debug "Checking if emulator is already booted"; PsList;
                  Debug ("Can't find a running instance, launching Android emulator '"
                           +:+ deviceName +:+ "'");
                  Spawn (path_join nd [home; "emulator"; "emulator"])
                        ["-avd"; deviceName; "-wipe-data"]] ++ events)
        /\ execs events = polls (checkBooted "emulator" steps))
  /\ ((20 <= length (answers steps))%nat ->
      fst (launchEmu nd (Some home) deviceName ps steps w) <> None).
Proof.
  intros Hnone.
  rewrite (launchEmu_missing nd home deviceName ps steps w Hnone).
  destruct (await_booted_spec "emulator" deviceName steps
              (log w [Debug "Checking if emulator is already booted"; PsList;
                      Debug ("Can't find a running instance, launching Android emulator '"
                               +:+ deviceName +:+ "'");
                      Spawn (path_join nd [home; "emulator"; "emulator"])
                            ["-avd"; deviceName; "-wipe-data"]]))
    as (Hres & events & Hworld & Hexecs).
  split; [exact Hres|]. split.
  - exists events. split; [|exact Hexecs]. rewrite Hworld.
    unfold log; simpl. rewrite <- !app_assoc. reflexivity.
  - intros Hlong. rewrite Hres.
    destruct (checkBooted_outcome "emulator" steps)
      as [(_ & Hlen & _)|(pre & r & post & _ & _ & _ & _ & Hcases)]; [lia|].
    destruct Hcases as [[_ ->]|[(_ & _ & ->)|(_ & _ & e & _ & ->)]]; discriminate.
Qed.

Lemma launchEmu_spawns_then_polls_witness :
  fst (launchEmu mac (Some "/sdk") "Pixel_4" (Throw (Err "spawn ps ENOENT"))
         [Fire; Fire; Answer answer_stopped; Answer answer_running] idle)
  = Some (Ok tt).
Proof.
  rewrite (proj1 (launchEmu_spawns_then_polls mac "/sdk" "Pixel_4"
                    (Throw (Err "spawn ps ENOENT"))
                    [Fire; Fire; Answer answer_stopped; Answer answer_running] idle
                    ltac:(intros list Hps; discriminate Hps))).
  reflexivity.
Defined.

(** X11: without ANDROID_HOME, launchEmu fails with a TypeError as soon as
    it finds no running emulator: joining the path of the binary throws, so
    nothing is spawned and no poll is made. *)
Theorem launchEmu_without_android_home (nd : node) (deviceName : string)
    (ps : result (list proc)) (steps : list step) (w : world) :
  (forall list, ps = Ok list ->
     Forall (fun x => includes (cmd x) deviceName = false) list) ->
  launchEmu nd None deviceName ps steps w =
  (Some (Throw TypeError),
   log w [Debug "Checking if emulator is already booted"; PsList;
          Debug ("Can't find a running instance, launching Android emulator '"
                   +:+ deviceName +:+ "'")]).
Proof.
  intros Hnone.
  assert (Hmiss : forall list, ps = Ok list ->
            array_find (fun x => includes (cmd x) deviceName) list = None).
  { intros list Hps. apply JsFacts.array_find_none. apply Hnone. exact Hps. }
  unfold launchEmu, bind at 1, emit at 1.
  rewrite (getAndroidPID_missing deviceName ps _ Hmiss).
  unfold join, bind, emit, log; simpl. rewrite <- !app_assoc. reflexivity.
Qed.

Lemma launchEmu_without_android_home_witness :
  launchEmu linux None "Pixel_4" (Ok [mkProc 1 "/sbin/init"])
    [Fire; Answer answer_stopped] idle
  = (Some (Throw TypeError),
     log idle [Debug "Checking if emulator is already booted"; PsList;
               Debug "Can't find a running instance, launching Android emulator 'Pixel_4'"]).
Proof.
  apply (launchEmu_without_android_home linux "Pixel_4" (Ok [mkProc 1 "/sbin/init"])
           [Fire; Answer answer_stopped] idle).
  intros list Hps. injection Hps as <-. repeat constructor.
Defined.

(** X12: a boot poll makes no call but its adb query and debug lines, and
    every query of a run is the same command: [adb -e shell getprop
    init.svc.bootanim] for the platforms emulator and genymotion, the [adb
    -d] form for every other platform string. *)
Theorem checkBooted_calls (platform : string) (steps : list step) :
  forall e, In e (trace (checkBooted platform steps)) ->
    (exists msg, e = Debug msg)
    \/ (e = Exec "adb -e shell getprop init.svc.bootanim"
        /\ (platform = "emulator" \/ platform = "genymotion"))
    \/ (e = Exec "adb -d shell getprop init.svc.bootanim"
        /\ platform <> "emulator" /\ platform <> "genymotion").
Proof.
  assert (Hcmd : forall e, e = Exec (boot_cmd platform) ->
            (e = Exec "adb -e shell getprop init.svc.bootanim"
             /\ (platform = "emulator" \/ platform = "genymotion"))
            \/ (e = Exec "adb -d shell getprop init.svc.bootanim"
                /\ platform <> "emulator" /\ platform <> "genymotion")).
  { intros e ->. unfold boot_cmd.
    destruct (String.eqb_spec platform "emulator") as [->|Hne1]; simpl; [auto|].
    destruct (String.eqb_spec platform "genymotion") as [->|Hne2]; simpl; auto. }
  unfold checkBooted.
  assert (Hrun : forall st,
            (forall e, In e (trace st) ->
               (exists msg, e = Debug msg) \/ e = Exec (boot_cmd platform)) ->
            forall e, In e (trace (play platform steps st)) ->
               (exists msg, e = Debug msg) \/ e = Exec (boot_cmd platform)).
  { induction steps as [|[|r] steps IH]; intros st Hst; cbn [play take];
      [exact Hst| |]; apply IH; intros e.
    - unfold fire. destruct (interval st); simpl; [|apply Hst].
      rewrite in_app_iff. simpl. intros [Hin|[<-|[]]]; [apply Hst; exact Hin|].
      right. reflexivity.
    - destruct (callback_trace platform r st) as [lines ->].
      rewrite in_app_iff, in_map_iff.
      intros [Hin|(msg & <- & _)]; [apply Hst; exact Hin|]. left. exists msg. reflexivity. }
  intros e Hin.
  destruct (Hrun (mkPoll 0 true Pending []) ltac:(simpl; intros ? []) e Hin)
    as [Hdebug|Hexec]; [left; exact Hdebug|right; apply Hcmd; exact Hexec].
Qed.

Lemma checkBooted_calls_witness :
  (exists msg, Exec "adb -d shell getprop init.svc.bootanim" = Debug msg)
  \/ (Exec "adb -d shell getprop init.svc.bootanim"
        = Exec "adb -e shell getprop init.svc.bootanim"
      /\ ("device" = "emulator" \/ "device" = "genymotion"))
  \/ (Exec "adb -d shell getprop init.svc.bootanim"
        = Exec "adb -d shell getprop init.svc.bootanim"
      /\ "device" <> "emulator" /\ "device" <> "genymotion").
Proof.
  apply (checkBooted_calls "device" [Fire; Fire; Answer answer_running]
           (Exec "adb -d shell getprop init.svc.bootanim")).
  simpl. auto.
Defined.

(** X13: when no process carries the device name, or the process list
    cannot be read, launchGeny spawns the player with [--vm-name
    <deviceName>] (the player inside Genymotion.app on darwin, the join of
    no segment elsewhere) and waits for the boot poll of the platform
    genymotion: it returns normally exactly when the poll resolves, fails
    with its reason when it rejects, and once 20 answers have come is never
    left waiting.  The calls that follow the spawn hold every adb command
    of the poll. *)
Theorem launchGeny_spawns_then_polls (nd : node) (deviceName : string)
    (ps : result (list proc)) (steps : list step) (w : world) :
  (forall list, ps = Ok list ->
     Forall (fun x => includes (cmd x) deviceName = false) list) ->
  fst (launchGeny nd deviceName ps steps w)
    = match settled (checkBooted "genymotion" steps) with
      | Resolved => Some (Ok tt)
      | Rejected e => Some (Throw e)
      | Pending => None
      end
  /\ (exists events,
        snd (launchGeny nd deviceName ps steps w)
        = log w ([Debug "Checking if Genymotion emulator is already booted"; PsList;
                  Debug ("Can't find a running instance, booting Genymotion emulator '"
                           +:+ deviceName +:+ "'");
                  Spawn (if String.eqb (platform nd) "darwin"
                         then path_join nd ["/"; "Applications"; "Genymotion.app";
                                            "Contents"; "MacOS"; "player.app";
                                            "Contents"; "MacOS"; "player"]
                         else path_join nd [])
                        ["--vm-name"; deviceName]] ++ events)
        /\ execs events = polls (checkBooted "genymotion" steps))
  /\ ((20 <= length (answers steps))%nat ->
      fst (launchGeny nd deviceName ps steps w) <> None).
Proof.
  intros Hnone.
  rewrite (launchGeny_missing nd deviceName ps steps w Hnone).
  destruct (await_booted_spec "genymotion" deviceName steps
              (log w [Debug "Checking if Genymotion emulator is already booted"; PsList;
                      Debug ("Can't find a running instance, booting Genymotion emulator '"
                               +:+ deviceName +:+ "'");
                      Spawn (if String.eqb (platform nd) "darwin"
                             then path_join nd ["/"; "Applications"; "Genymotion.app";
                                                "Contents"; "MacOS"; "player.app";
                                                "Contents"; "MacOS"; "player"]
                             else path_join nd [])
                            ["--vm-name"; deviceName]]))
    as (Hres & events & Hworld & Hexecs).
  split; [exact Hres|]. split.
  - exists events. split; [|exact Hexecs]. rewrite Hworld.
    unfold log; simpl. rewrite <- !app_assoc. reflexivity.
  - intros Hlong. rewrite Hres.
    destruct (checkBooted_outcome "genymotion" steps)
      as [(_ & Hlen & _)|(pre & r & post & _ & _ & _ & _ & Hcases)]; [lia|].
    destruct Hcases as [[_ ->]|[(_ & _ & ->)|(_ & _ & e & _ & ->)]]; discriminate.
Qed.

Lemma launchGeny_spawns_then_polls_witness :
  fst (launchGeny windows "Nexus" (Ok [mkProc 4 "System"])
         [Fire; Answer answer_running; Fire; Answer answer_failed] idle)
  = Some (Throw (Err "Command failed: adb -e shell getprop init.svc.bootanim")).
Proof.
  rewrite (proj1 (launchGeny_spawns_then_polls windows "Nexus" (Ok [mkProc 4 "System"])
                    [Fire; Answer answer_running; Fire; Answer answer_failed] idle
                    ltac:(intros list Hps; injection Hps as <-; repeat constructor))).
  reflexivity.
Defined.

(** The caller's line comes right after the answer that resolves the poll;
    the answer of a command issued before is logged after it. *)
Example launchEmu_with_a_late_answer :
  launchEmu mac (Some "/sdk") "Pixel_4" (Ok [mkProc 1 "/sbin/launchd"])
    [Fire; Fire; Answer answer_stopped; Answer answer_running] idle
  = (Some (Ok tt),
     log idle [Debug "Checking if emulator is already booted"; PsList;
               Debug "Can't find a running instance, launching Android emulator 'Pixel_4'";
               Spawn "/sdk/emulator/emulator" ["-avd"; "Pixel_4"; "-wipe-data"];
               Exec "adb -e shell getprop init.svc.bootanim";
               Exec "adb -e shell getprop init.svc.bootanim";
               Debug "Pixel_4 is booted";
               Debug "emulator still booting"]).
Proof. reflexivity. Qed.

End Launch.


(** ** The WebDriver session: the other paths *)

Module Session.
Import Appium.

Lemma array_indexOf_from_absent (i : Z) (l : list string) (x : string) :
  ~ In x l -> array_indexOf_from i l x = -1.
Proof.
  revert i. induction l as [|y l IH]; intros i Hnot; simpl; [reflexivity|].
  destruct (String.eqb_spec y x) as [->|Hne]; [exfalso; apply Hnot; left; reflexivity|].
  apply IH. intros Hin. apply Hnot. right. exact Hin.
Qed.

Lemma array_indexOf_from_first (i : Z) (pre rest : list string) (x : string) :
  ~ In x pre ->
  array_indexOf_from i (pre ++ x :: rest) x = i + Z.of_nat (length pre).
Proof.
  revert i. induction pre as [|y pre IH]; intros i Hnot; simpl.
  - rewrite String.eqb_refl. lia.
  - destruct (String.eqb_spec y x) as [->|Hne];
      [exfalso; apply Hnot; left; reflexivity|].
    rewrite IH by (intros Hin; apply Hnot; right; exact Hin). lia.
Qed.

Lemma array_get_nat (l : list string) (n : nat) :
  array_get l (Z.of_nat n) = l !! n.
Proof.
  unfold array_get. destruct (Z.ltb_spec (Z.of_nat n) 0) as [Hneg|_]; [lia|].
  rewrite Nat2Z.id. reflexivity.
Qed.

Lemma split_go_nonempty (sep : ascii) (cur s : string) : split_go sep cur s <> [].
Proof.
  revert cur. induction s as [|c s IH]; intros cur; simpl; [discriminate|].
  destruct (Ascii.eqb c sep); [discriminate|apply IH].
Qed.

(** The word after the first occurrence of a flag among the words [args]. *)
Lemma word_after_flag (args pre rest : list string) (flag : string) :
  args = pre ++ flag :: rest -> ~ In flag pre ->
  array_get args (array_indexOf args flag + 1) = head rest.
Proof.
  intros -> Hnot. unfold array_indexOf.
  rewrite array_indexOf_from_first by exact Hnot.
  replace (0 + Z.of_nat (length pre) + 1) with (Z.of_nat (S (length pre))) by lia.
  rewrite array_get_nat.
  rewrite lookup_app_r by lia.
  replace (S (length pre) - length pre)%nat with 1%nat by lia.
  destruct rest; reflexivity.
Qed.

Lemma first_occurrence (l : list string) (x : string) :
  In x l -> exists pre rest, l = pre ++ x :: rest /\ ~ In x pre.
Proof.
  induction l as [|y l IH]; intros Hin; [destruct Hin|].
  destruct (String.eqb_spec y x) as [->|Hne].
  - exists [], l. split; [reflexivity|intros []].
  - destruct Hin as [Heq|Hin]; [contradiction|].
    destruct (IH Hin) as (pre & rest & -> & Hnot).
    exists (y :: pre), rest. split; [reflexivity|].
    intros [Heq|Hin']; [contradiction|exact (Hnot Hin')].
Qed.

(** X14: how startClient reads the host and the port off the command line
    of the server.  The value of a flag is the word after its first
    occurrence; it is undefined exactly when that first occurrence is the
    last word of the command line; and when the flag does not occur at all
    the value is the first word of the command line, never undefined. *)
Theorem arg_after_cases (flag : string) (info : proc) :
  (forall pre v post,
     split " " (cmd info) = pre ++ flag :: v :: post -> ~ In flag pre ->
     arg_after flag info = Some v)
  /\ (arg_after flag info = None <->
      exists pre, split " " (cmd info) = pre ++ [flag] /\ ~ In flag pre)
  /\ (~ In flag (split " " (cmd info)) ->
      arg_after flag info = head (split " " (cmd info))
      /\ arg_after flag info <> None).
Proof.
  unfold arg_after. set (args := split " " (cmd info)).
  assert (Hne : args <> []) by apply split_go_nonempty.
  assert (Habsent : ~ In flag args ->
            array_get args (array_indexOf args flag + 1) = head args).
  { intros Hnot. unfold array_indexOf.
    rewrite array_indexOf_from_absent by exact Hnot.
    destruct args; reflexivity. }
  split; [|split].
  - intros pre v post Heq Hnot.
    rewrite (word_after_flag args pre (v :: post) flag Heq Hnot). reflexivity.
  - split.
    + intros Hnone. destruct (in_dec String.string_dec flag args) as [Hin|Hnot].
      * destruct (first_occurrence args flag Hin) as (pre & rest & Heq & Hpre).
        rewrite (word_after_flag args pre rest flag Heq Hpre) in Hnone.
        destruct rest; [|discriminate]. exists pre. split; assumption.
      * rewrite (Habsent Hnot) in Hnone. destruct args; [contradiction|discriminate].
    + intros (pre & Heq & Hnot).
      rewrite (word_after_flag args pre [] flag Heq Hnot). reflexivity.
  - intros Hnot. rewrite (Habsent Hnot). split; [reflexivity|].
    destruct args; [contradiction|discriminate].
Qed.

Lemma arg_after_cases_witness :
  arg_after "-a" (mkProc 977 "node appium --log-no-colors -a 0.0.0.0 -p 4723")
    = Some "0.0.0.0"
  /\ arg_after "-p" (mkProc 977 "node appium --log-no-colors") = Some "node".
Proof.
  split.
  - apply (proj1 (arg_after_cases "-a"
                    (mkProc 977 "node appium --log-no-colors -a 0.0.0.0 -p 4723"))
             ["node"; "appium"; "--log-no-colors"] "0.0.0.0" ["-p"; "4723"]).
    + reflexivity.
    + simpl. intros [H|[H|[H|[]]]]; discriminate H.
  - destruct (proj2 (proj2 (arg_after_cases "-p"
                              (mkProc 977 "node appium --log-no-colors"))))
      as [Hhead _].
    + simpl. intros [H|[H|[H|[]]]]; discriminate H.
    + rewrite Hhead. reflexivity.
Defined.

(** X15: when startClient finds no Appium process, or cannot read the
    process list, its promise never settles: the executor dies with a
    TypeError (or with the error of the listing) before any driver is
    created, so [global.driver] and [global.webdriver] stay as they were and
    [driver.init] is not called; the capabilities of the caller have been
    rewritten all the same. *)
Theorem startClient_without_server (nd : node) (capabilities : gmap string value)
    (ps : result (list proc)) (init_err : option thrown) (w : world) :
  (forall list, ps = Ok list ->
     Forall (fun x => includes (cmd x) (appiumPath nd) = false) list) ->
  s_promise (startClient nd capabilities ps init_err w) = Pending
  /\ s_executor (startClient nd capabilities ps init_err w)
     = Throw (match ps with Ok _ => TypeError | Throw e => e end)
  /\ s_world (startClient nd capabilities ps init_err w)
     = log w [Debug "Starting WebDriver Instance"; ChaiSetup; PsList]
  /\ s_caps (startClient nd capabilities ps init_err w) !! "newCommandTimeout"
     = Some (VNum 600).
Proof.
  intros Hnone.
  assert (Hcaps : start_caps capabilities !! "newCommandTimeout" = Some (VNum 600))
    by apply lookup_insert_eq.
  unfold startClient, connect, getAppium, call, bind, emit, ret, throw.
  destruct ps as [list|e]; simpl.
  - rewrite (JsFacts.array_find_none _ list (Hnone list eq_refl)). simpl.
    unfold log; simpl. rewrite <- !app_assoc. repeat split. exact Hcaps.
  - unfold log; simpl. rewrite <- !app_assoc. repeat split. exact Hcaps.
Qed.

Lemma startClient_without_server_witness :
  s_promise (startClient mac android_caps (Ok other_processes) None idle) = Pending
  /\ g_driver (s_world (startClient mac android_caps (Ok other_processes) None idle))
     = None.
Proof.
  destruct (startClient_without_server mac android_caps (Ok other_processes) None idle)
    as (Hpromise & _ & Hworld & _).
  - intros list Hps. injection Hps as <-. repeat constructor.
  - split; [exact Hpromise|]. rewrite Hworld. reflexivity.
Defined.

(** X16: when startClient finds the server and reads both a host and a port
    off its command line, the promise follows [driver.init]: resolved when
    it reports no error, rejected with its error otherwise.  Either way the
    driver made for that host and port sits in [global.driver], and
    [driver.init] was called with the rewritten capabilities. *)
Theorem startClient_follows_init (nd : node) (capabilities : gmap string value)
    (before after : list proc) (info : proc) (host port : string)
    (init_err : option thrown) (w : world) :
  Forall (fun x => includes (cmd x) (appiumPath nd) = false) before ->
  includes (cmd info) (appiumPath nd) = true ->
  arg_after "-a" info = Some host -> arg_after "-p" info = Some port ->
  s_promise (startClient nd capabilities (Ok (before ++ info :: after)) init_err w)
    = match init_err with Some err => Rejected err | None => Resolved end
  /\ s_executor (startClient nd capabilities (Ok (before ++ info :: after))
                   init_err w) = Ok tt
  /\ s_world (startClient nd capabilities (Ok (before ++ info :: after)) init_err w)
    = mkWorld (Some (mkDriver (Some host) (Some port))) true
        (w_trace w ++
         [Debug "Starting WebDriver Instance"; ChaiSetup; PsList;
          PromiseChainRemote (Some host) (Some port);
          LoadDriverCommands; Init (start_caps capabilities)]).
Proof.
  intros Hbefore Hinfo Hhost Hport.
  pose proof (Processes.array_find_first _ before after info Hbefore Hinfo) as Hfound.
  unfold startClient, connect, getAppium, call, bind, emit, ret,
    set_driver, set_webdriver.
  rewrite Hfound, Hhost, Hport. unfold log; simpl.
  split; [destruct init_err; reflexivity|]. split; [reflexivity|].
  rewrite <- !app_assoc. reflexivity.
Qed.

Lemma startClient_follows_init_witness :
  s_promise
    (startClient mac android_caps
       (Ok ([mkProc 1 "/sbin/launchd"]
            ++ mkProc 977 "node /work/app/node_modules/.bin/appium -a 127.0.0.1 -p 4723"
            :: []))
       (Some (Err "ECONNREFUSED")) idle)
  = Rejected (Err "ECONNREFUSED").
Proof.
  apply (startClient_follows_init mac android_caps [mkProc 1 "/sbin/launchd"] []
           (mkProc 977 "node /work/app/node_modules/.bin/appium -a 127.0.0.1 -p 4723")
           "127.0.0.1" "4723" (Some (Err "ECONNREFUSED")) idle).
  - repeat constructor.
  - reflexivity.
  - reflexivity.
  - reflexivity.
Defined.

(** X17: with a session open, stopClient clears [global.driver] exactly when
    it returns normally: if the driver fails to report its capabilities, to
    close the app, to remove it or to quit, or if the identifier of the app
    cannot be read, the driver stays in [global.driver].  In no case does
    stopClient touch [global.webdriver]. *)
Theorem stopClient_clears_driver_iff_done (dr : driver_replies) (w : world)
    (d : driver_handle) :
  g_driver w = Some d ->
  (fst (stopClient dr w) = Ok tt <-> g_driver (snd (stopClient dr w)) = None)
  /\ (fst (stopClient dr w) <> Ok tt -> g_driver (snd (stopClient dr w)) = Some d)
  /\ g_webdriver (snd (stopClient dr w)) = g_webdriver w.
Proof.
  intros Hd. destruct dr as [rc rclose rremove rquit].
  unfold stopClient, call, bind, emit, get_driver, set_driver, ret, log; simpl.
  rewrite Hd.
  destruct rc as [caps|e1]; simpl;
    [|repeat split; try congruence; intros H; discriminate H].
  destruct rclose as [[]|e2]; simpl;
    [|repeat split; try congruence; intros H; discriminate H].
  destruct (is_str (get caps "platformName") "Android"
            || is_str (get caps "platformName") "iOS"); simpl.
  - destruct (is_str (get caps "platformName") "iOS"); simpl.
    + destruct rremove as [[]|e3]; simpl;
        [|repeat split; try congruence; intros H; discriminate H].
      destruct rquit as [[]|e4]; simpl;
        repeat split; try congruence; intros H; discriminate H.
    + destruct (prop (get caps "desired") "appPackage") as [id|e5]; simpl;
        [|repeat split; try congruence; intros H; discriminate H].
      destruct rremove as [[]|e3]; simpl;
        [|repeat split; try congruence; intros H; discriminate H].
      destruct rquit as [[]|e4]; simpl;
        repeat split; try congruence; intros H; discriminate H.
  - destruct rquit as [[]|e4]; simpl;
      repeat split; try congruence; intros H; discriminate H.
Qed.

Lemma stopClient_clears_driver_iff_done_witness :
  g_driver (snd (stopClient
                   (mkReplies (Ok {[ "platformName" := VStr "iOS" ]}) (Ok tt)
                              (Throw (Err "app not installed")) (Ok tt))
                   (mkWorld (Some (mkDriver (Some "localhost") (Some "4723")))
                            true [])))
  = Some (mkDriver (Some "localhost") (Some "4723")).
Proof.
  apply (proj1 (proj2 (stopClient_clears_driver_iff_done
           (mkReplies (Ok {[ "platformName" := VStr "iOS" ]}) (Ok tt)
                      (Throw (Err "app not installed")) (Ok tt))
           (mkWorld (Some (mkDriver (Some "localhost") (Some "4723"))) true [])
           (mkDriver (Some "localhost") (Some "4723")) eq_refl))).
  discriminate.
Defined.

Lemma is_str_true (v : value) (text : string) :
  is_str v text = true <-> v = VStr text.
Proof.
  destruct v; simpl; try (split; discriminate).
  rewrite String.eqb_eq. split; congruence.
Qed.

(** X18: stopClient asks the driver to remove an app only after the driver
    has reported its capabilities and closed the app, only when the reported
    platformName is 'iOS' or 'Android', and then with the identifier of that
    platform: CFBundleIdentifier for iOS, desired.appPackage for Android. *)
Theorem stopClient_removes_only_the_platform_app (dr : driver_replies) (w : world)
    (id : value) :
  In (RemoveApp id) (w_trace (snd (stopClient dr w))) ->
  ~ In (RemoveApp id) (w_trace w) ->
  exists caps,
    r_capabilities dr = Ok caps /\ r_closeApp dr = Ok tt
    /\ ((get caps "platformName" = VStr "iOS"
         /\ id = get caps "CFBundleIdentifier")
        \/ (get caps "platformName" = VStr "Android"
            /\ prop (get caps "desired") "appPackage" = Ok id)).
Proof.
  intros Hin Hold. destruct dr as [rc rclose rremove rquit].
  assert (Hno : forall events,
            In (RemoveApp id) (w_trace w ++ events) -> In (RemoveApp id) events).
  { intros events H. apply in_app_iff in H as [H|H]; [contradiction|exact H]. }
  unfold stopClient, call, bind, emit, get_driver, set_driver, ret, log in Hin;
    simpl in Hin.
  destruct (g_driver w); simpl in Hin.
  2:{ apply Hno in Hin. simpl in Hin. intuition discriminate. }
  destruct rc as [caps|e1]; simpl in Hin.
  2:{ rewrite <- !app_assoc in Hin. apply Hno in Hin. simpl in Hin.
      intuition discriminate. }
  destruct rclose as [[]|e2]; simpl in Hin.
  2:{ rewrite <- !app_assoc in Hin. apply Hno in Hin. simpl in Hin.
      intuition discriminate. }
  exists caps. split; [reflexivity|]. split; [reflexivity|].
  destruct (is_str (get caps "platformName") "iOS") eqn:Hios.
  - rewrite orb_true_r in Hin. simpl in Hin. left.
    apply is_str_true in Hios. split; [exact Hios|].
    destruct rremove as [[]|e3]; [destruct rquit as [[]|e4]|]; simpl in Hin;
      rewrite <- !app_assoc in Hin; apply Hno in Hin; simpl in Hin;
      repeat (destruct Hin as [Hin|Hin]; try discriminate Hin);
      try (injection Hin as <-; reflexivity); destruct Hin.
  - rewrite orb_false_r in Hin.
    destruct (is_str (get caps "platformName") "Android") eqn:Handroid;
      simpl in Hin.
    + right. apply is_str_true in Handroid. split; [exact Handroid|].
      destruct (prop (get caps "desired") "appPackage") as [id'|e5]; simpl in Hin.
      * destruct rremove as [[]|e3]; [destruct rquit as [[]|e4]|]; simpl in Hin;
          rewrite <- !app_assoc in Hin; apply Hno in Hin; simpl in Hin;
          repeat (destruct Hin as [Hin|Hin]; try discriminate Hin);
          try (injection Hin as <-; reflexivity); destruct Hin.
      * rewrite <- !app_assoc in Hin. apply Hno in Hin. simpl in Hin.
        intuition discriminate.
    + destruct rquit as [[]|e4]; simpl in Hin;
        rewrite <- !app_assoc in Hin; apply Hno in Hin; simpl in Hin;
        intuition discriminate.
Qed.

Lemma stopClient_removes_only_the_platform_app_witness :
  exists caps,
    Ok {[ "platformName" := VStr "iOS";
          "CFBundleIdentifier" := VStr "com.example.app" ]} = Ok caps
    /\ Ok tt = Ok tt
    /\ ((get caps "platformName" = VStr "iOS"
         /\ VStr "com.example.app" = get caps "CFBundleIdentifier")
        \/ (get caps "platformName" = VStr "Android"
            /\ prop (get caps "desired") "appPackage" = Ok (VStr "com.example.app"))).
Proof.
  apply (stopClient_removes_only_the_platform_app
           (mkReplies (Ok {[ "platformName" := VStr "iOS";
                             "CFBundleIdentifier" := VStr "com.example.app" ]})
                      (Ok tt) (Ok tt) (Ok tt))
           (mkWorld (Some (mkDriver (Some "localhost") (Some "4723"))) true [])
           (VStr "com.example.app")).
  - vm_compute. auto 10.
  - intros [].
Defined.

(** X19: on Android, when the capabilities the driver reports hold no
    [desired] object, stopClient fails with a TypeError once the app is
    closed: the app is not removed, the session is not quit and the driver
    stays in [global.driver]. *)
Theorem stopClient_android_without_desired (dr : driver_replies)
    (caps : gmap string value) (w : world) (d : driver_handle) :
  g_driver w = Some d ->
  r_capabilities dr = Ok caps -> r_closeApp dr = Ok tt ->
  get caps "platformName" = VStr "Android" ->
  get caps "desired" = VUndef ->
  stopClient dr w =
  (Throw TypeError,
   mkWorld (Some d) (g_webdriver w)
     (w_trace w ++
      [Debug "Stopping WebDriver Instance"; SessionCapabilities;
       Debug "Closing the application"; CloseApp;
       Debug "Removing the app from device"])).
Proof.
  intros Hd Hcaps Hclose Hplatform Hdesired.
  unfold stopClient, call, bind, emit, get_driver, set_driver, ret, log; simpl.
  rewrite Hd, Hcaps. simpl. rewrite Hclose. simpl.
  rewrite Hplatform, Hdesired. simpl. rewrite <- !app_assoc. reflexivity.
Qed.

Lemma stopClient_android_without_desired_witness :
  fst (stopClient (mkReplies (Ok {[ "platformName" := VStr "Android" ]})
                             (Ok tt) (Ok tt) (Ok tt))
         (mkWorld (Some (mkDriver (Some "localhost") (Some "4723"))) true []))
  = Throw TypeError.
Proof.
  rewrite (stopClient_android_without_desired
             (mkReplies (Ok {[ "platformName" := VStr "Android" ]})
                        (Ok tt) (Ok tt) (Ok tt))
             {[ "platformName" := VStr "Android" ]}
             (mkWorld (Some (mkDriver (Some "localhost") (Some "4723"))) true [])
             (mkDriver (Some "localhost") (Some "4723")));
    reflexivity.
Defined.

End Session.

(** ** The Appium server: the other paths *)

Module ServerEvents.
Import Appium.

(** X20: on a host that is neither darwin nor win32, runAppium with an
    accepted hostname rejects with a TypeError and spawns nothing: the
    switch leaves the name of the binary undefined and joining the path
    throws inside the executor. *)
Theorem runAppium_without_binary (nd : node) (modRoot : string)
    (hostname : option string) (port : option Z) (w : world) :
  platform nd <> "darwin" -> platform nd <> "win32" ->
  In (default "localhost" hostname) validAddresses ->
  runAppium nd modRoot hostname port w =
  (Rejected TypeError,
   log w [Step ("Starting Appium Server On '" +:+ default "localhost" hostname
                  +:+ ":" +:+ pretty (default 4723 port) +:+ "'")]).
Proof.
  intros Hmac Hwin Hin. apply JsFacts.array_includes_In in Hin.
  apply String.eqb_neq in Hmac, Hwin.
  unfold runAppium, runAppium_executor, bind, emit, ret, join, exe.
  rewrite Hin, Hmac, Hwin. reflexivity.
Qed.

Lemma runAppium_without_binary_witness :
  runAppium linux "/work/app" None (Some 4800) idle =
  (Rejected TypeError, log idle [Step "Starting Appium Server On 'localhost:4800'"]).
Proof.
  apply (runAppium_without_binary linux "/work/app" None (Some 4800) idle).
  - discriminate.
  - discriminate.
  - simpl; auto.
Defined.

Lemma matches_literal (s t : string) (ps : list pat) :
  matches_to_end (map Lit (list_ascii_of_string s) ++ ps) (s +:+ t)
  = matches_to_end ps t.
Proof.
  induction s as [|c s IH]; [reflexivity|].
  rewrite JsFacts.append_cons. simpl. rewrite Ascii.eqb_refl. exact IH.
Qed.

(** A dot of the hostname stands for any character that does not end a
    line; every other character stands for itself. *)
Lemma matches_host (hostname shown t : string) (ps : list pat) :
  Forall2 (fun c c' => c' = c
                       \/ (c = "."%char /\ c' <> "010"%char /\ c' <> "013"%char))
          (list_ascii_of_string hostname) (list_ascii_of_string shown) ->
  matches_to_end (map host_pat (list_ascii_of_string hostname) ++ ps) (shown +:+ t)
  = matches_to_end ps t.
Proof.
  revert shown. induction hostname as [|c hostname IH]; intros shown Hall.
  - destruct shown; [reflexivity|inversion Hall].
  - destruct shown as [|c' shown]; [inversion Hall|].
    simpl in Hall. inversion Hall as [|? ? ? ? Hc Hrest]; subst.
    rewrite JsFacts.append_cons. simpl. rewrite (IH shown Hrest).
    replace (pat_matches (host_pat c) c') with true; [reflexivity|].
    symmetry. unfold host_pat.
    destruct (Ascii.eqb_spec c ".") as [->|Hnodot]; simpl.
    + destruct Hc as [->|(_ & Hnl & Hcr)]; [reflexivity|].
      apply Ascii.eqb_neq in Hnl, Hcr. rewrite Hnl, Hcr. reflexivity.
    + destruct Hc as [->|(Hdot & _)]; [apply Ascii.eqb_refl|contradiction].
Qed.

Lemma regexp_test_end (ps : list pat) (before s : string) :
  matches_to_end ps s = true -> regexp_test ps (before +:+ s) = true.
Proof.
  intros Hs. induction before as [|c before IH].
  - destruct s; simpl; rewrite Hs; reflexivity.
  - rewrite JsFacts.append_cons. simpl. rewrite IH. apply orb_true_r.
Qed.

Lemma started_line_matches (hostname shown before : string) (port : Z) :
  Forall2 (fun c c' => c' = c
                       \/ (c = "."%char /\ c' <> "010"%char /\ c' <> "013"%char))
          (list_ascii_of_string hostname) (list_ascii_of_string shown) ->
  regexp_test (started_pattern hostname port)
    (before +:+ "started on " +:+ shown +:+ ":" +:+ pretty port) = true.
Proof.
  intros Hall. apply regexp_test_end. unfold started_pattern.
  rewrite matches_literal, (matches_host hostname shown _ _ Hall).
  change (":" +:+ pretty port) with (String ":" (pretty port)).
  simpl. replace (pretty port) with (pretty port +:+ "") at 2.
  - rewrite <- (app_nil_r (map Lit _)). apply matches_literal.
  - induction (pretty port) as [|c s IH]; [reflexivity|].
    rewrite JsFacts.append_cons, IH. reflexivity.
Qed.

Lemma same_characters (l : list ascii) :
  Forall2 (fun c c' => c' = c
                       \/ (c = "."%char /\ c' <> "010"%char /\ c' <> "013"%char))
          l l.
Proof. induction l; constructor; auto. Qed.

(** X21: the handler of the standard output resolves the promise of
    runAppium, and reports the step as finished, whenever the chunk it is
    given, once trimmed, ends with "started on <hostname>:<port>" for the
    hostname and port the server was started with. *)
Theorem server_started_resolves (hostname data before : string) (port : Z)
    (p : promise) (w : world) :
  In hostname validAddresses ->
  trim data = before +:+ "started on " +:+ hostname +:+ ":" +:+ pretty port ->
  server_handler hostname port (StdoutData data) p w
  = (Ok (resolve p), log w [Finish]).
Proof.
  intros _ Hline. unfold server_handler. rewrite Hline.
  rewrite (started_line_matches hostname hostname before port (same_characters _)).
  reflexivity.
Qed.

Lemma server_started_resolves_witness :
  server_handler "127.0.0.1" 4723
    (StdoutData "  [Appium] Appium REST http interface listener started on 127.0.0.1:4723
")
    Pending idle
  = (Ok Resolved, log idle [Finish]).
Proof.
  apply (server_started_resolves "127.0.0.1" _
           "[Appium] Appium REST http interface listener " 4723 Pending idle).
  - simpl; auto.
  - reflexivity.
Defined.

(** X22: the hostname goes into the regular expression unescaped, so each
    of its dots matches any character that does not end a line: for
    '0.0.0.0' and '127.0.0.1' a line that shows other characters in the
    place of the dots resolves the promise as well. *)
Theorem server_started_dot_is_wildcard (hostname shown data before : string)
    (port : Z) (p : promise) (w : world) :
  In hostname validAddresses ->
  Forall2 (fun c c' => c' = c
                       \/ (c = "."%char /\ c' <> "010"%char /\ c' <> "013"%char))
          (list_ascii_of_string hostname) (list_ascii_of_string shown) ->
  trim data = before +:+ "started on " +:+ shown +:+ ":" +:+ pretty port ->
  server_handler hostname port (StdoutData data) p w
  = (Ok (resolve p), log w [Finish]).
Proof.
  intros _ Hall Hline. unfold server_handler. rewrite Hline.
  rewrite (started_line_matches hostname shown before port Hall).
  reflexivity.
Qed.

Lemma server_started_dot_is_wildcard_witness :
  server_handler "0.0.0.0" 4723 (StdoutData "started on 0a0b0c0:4723") Pending idle
  = (Ok Resolved, log idle [Finish]).
Proof.
  apply (server_started_dot_is_wildcard "0.0.0.0" "0a0b0c0" _ "" 4723 Pending idle).
  - simpl; auto.
  - simpl.
    repeat (constructor;
            [first [left; reflexivity|right; repeat split; discriminate]|]).
    constructor.
  - reflexivity.
Defined.

Lemma server_handler_settled (hostname : string) (port : Z) (ev : server_event)
    (p : promise) (w : world) :
  p <> Pending -> fst (server_handler hostname port ev p w) = Ok p.
Proof.
  intros Hp. unfold server_handler, finish, bind, emit, ret.
  destruct ev as [data|data|stack]; simpl.
  - destruct (regexp_test _ _); simpl; [|reflexivity].
    destruct p; [contradiction|reflexivity|reflexivity].
  - destruct p; [contradiction|reflexivity|reflexivity].
  - destruct p; [contradiction|reflexivity|reflexivity].
Qed.

Lemma serve_settled (hostname : string) (port : Z) (evs : list server_event)
    (p : promise) (w : world) :
  p <> Pending -> fst (serve hostname port evs p w) = Ok p.
Proof.
  revert w. induction evs as [|ev evs IH]; intros w Hp; [reflexivity|].
  simpl. unfold bind.
  pose proof (server_handler_settled hostname port ev p w Hp) as Hev.
  destruct (server_handler hostname port ev p w) as [[p'|e] w']; simpl in Hev;
    [|discriminate Hev].
  injection Hev as ->. apply IH. exact Hp.
Qed.

(** X23: the first event that settles the promise of runAppium decides it.
    Whatever the server writes afterwards changes nothing; in particular
    any output on the standard error, or an error event, that comes first
    rejects the promise for good, even when the server goes on to announce
    that it has started. *)
Theorem serve_first_settlement_wins (hostname : string) (port : Z)
    (evs : list server_event) (w : world) :
  (forall p, p <> Pending -> fst (serve hostname port evs p w) = Ok p)
  /\ (forall data,
        fst (serve hostname port (StderrData data :: evs) Pending w)
        = Ok (Rejected (Str data)))
  /\ (forall stack,
        fst (serve hostname port (ErrorEvent stack :: evs) Pending w)
        = Ok (Rejected (Str stack))).
Proof.
  split; [|split].
  - intros p Hp. apply serve_settled. exact Hp.
  - intros data. simpl. unfold bind, ret. simpl. apply serve_settled. discriminate.
  - intros stack. simpl. unfold bind, ret. simpl. apply serve_settled. discriminate.
Qed.

Lemma serve_first_settlement_wins_witness :
  fst (serve "localhost" 4723
         [StderrData "(node) warning: possible EventEmitter memory leak detected";
          StdoutData "[Appium] listener started on localhost:4723"]
         Pending idle)
  = Ok (Rejected (Str "(node) warning: possible EventEmitter memory leak detected")).
Proof.
  apply (proj1 (proj2 (serve_first_settlement_wins "localhost" 4723
                         [StdoutData "[Appium] listener started on localhost:4723"]
                         idle))).
Defined.

End ServerEvents.

(** ** Certificates and provisioning profiles: edges *)

Module LookupEdges.
Import Device Lookup.

(** X24: on darwin, when ioslib answers but holds no list under a valid
    type, the lookup fails with a TypeError (it calls forEach on undefined),
    not with its "No ... found" error. *)
Theorem lookup_type_without_records (nd : node) (type search : string)
    (lib : gmap string (list entry)) (w : world) :
  platform nd = "darwin" -> lib !! type = None ->
  (In type valid_cert_types ->
   getCert nd type search (Ok lib) w = (Throw TypeError, log w [GetCerts]))
  /\ (In type valid_profile_types ->
      getProfile nd type search (Ok lib) w
      = (Throw TypeError, log w [GetProvisioningProfiles])).
Proof.
  intros Hp Hnone. split; intros Hvalid; apply JsFacts.array_includes_In in Hvalid.
  - rewrite getCert_darwin, Hvalid, Hnone by exact Hp. reflexivity.
  - rewrite getProfile_darwin, Hvalid, Hnone by exact Hp. reflexivity.
Qed.

Lemma lookup_type_without_records_witness :
  getCert mac "distribution" "Example" (Ok {[ "developer" := [dev_cert_new] ]}) idle
  = (Throw TypeError, log idle [GetCerts]).
Proof.
  destruct (lookup_type_without_records mac "distribution" "Example"
              {[ "developer" := [dev_cert_new] ]} idle) as [Hcert _].
  - reflexivity.
  - reflexivity.
  - apply Hcert. simpl; auto.
Defined.

Lemma keep_last_all (p : entry -> bool) (records : list entry) :
  (forall r, p r = true) -> keep_last p records = last records.
Proof.
  intros Hall. induction records as [|r records _] using rev_ind; [reflexivity|].
  rewrite keep_last_snoc, Hall, last_snoc. reflexivity.
Qed.

(** X25: every name contains the empty string, so on darwin getCert with an
    empty search returns the last certificate listed under a valid type,
    whatever its name, and throws "No certificate found" only when the list
    is empty. *)
Theorem getCert_empty_search (nd : node) (type : string)
    (lib : gmap string (list entry)) (records : list entry) (w : world) :
  platform nd = "darwin" -> In type valid_cert_types ->
  lib !! type = Some records ->
  fst (getCert nd type "" (Ok lib) w) =
  match last records with
  | Some r => Ok (Some r)
  | None => Throw (no_cert "")
  end.
Proof.
  intros Hp Hvalid Hrecords. apply JsFacts.array_includes_In in Hvalid.
  rewrite getCert_darwin, Hvalid, Hrecords by exact Hp. simpl.
  rewrite keep_last_all by (intros r; apply Processes.includes_empty).
  reflexivity.
Qed.

Lemma getCert_empty_search_witness :
  fst (getCert mac "developer" "" (Ok sample_certs) idle) = Ok (Some dev_cert_new).
Proof.
  apply (getCert_empty_search mac "developer" sample_certs
           [dev_cert_old; dev_cert_new] idle eq_refl).
  - simpl; auto.
  - reflexivity.
Defined.

(** X26: whatever ioslib answers, a record that getCert or getProfile
    returns comes from the list held under the requested type, that type is
    one of the allowed ones, the host is darwin, and the name of the record
    contains the search string (getCert) or equals it (getProfile). *)
Theorem lookup_result_is_a_match (nd : node) (type search : string)
    (lib : result (gmap string (list entry))) (w : world) (r : entry) :
  (fst (getCert nd type search lib w) = Ok (Some r) ->
   platform nd = "darwin" /\ In type valid_cert_types
   /\ includes (name r) search = true
   /\ exists certs records,
        lib = Ok certs /\ certs !! type = Some records /\ In r records)
  /\ (fst (getProfile nd type search lib w) = Ok (Some r) ->
      platform nd = "darwin" /\ In type valid_profile_types
      /\ name r = search
      /\ exists profiles records,
           lib = Ok profiles /\ profiles !! type = Some records /\ In r records).
Proof.
  split; intros Hfound.
  - destruct (String.eqb_spec (platform nd) "darwin") as [Hp|Hp].
    2:{ apply String.eqb_neq in Hp. unfold getCert in Hfound.
        rewrite Hp in Hfound. discriminate Hfound. }
    destruct lib as [certs|e].
    2:{ unfold getCert, call, bind, emit in Hfound. rewrite Hp in Hfound.
        simpl in Hfound. discriminate Hfound. }
    rewrite getCert_darwin in Hfound by exact Hp. cbn [fst] in Hfound.
    destruct (array_includes valid_cert_types type) eqn:Hvalid;
      [|discriminate Hfound].
    simpl in Hfound.
    destruct (certs !! type) as [records|] eqn:Hrecords; [|discriminate Hfound].
    destruct (keep_last _ records) as [found|] eqn:Hkeep; [|discriminate Hfound].
    injection Hfound as ->.
    apply keep_last_iff in Hkeep as (before & after & -> & Hmatch & _).
    split; [exact Hp|]. split; [apply JsFacts.array_includes_In; exact Hvalid|].
    split; [exact Hmatch|]. exists certs, (before ++ r :: after).
    split; [reflexivity|]. split; [exact Hrecords|].
    apply in_app_iff. right. left. reflexivity.
  - destruct (String.eqb_spec (platform nd) "darwin") as [Hp|Hp].
    2:{ apply String.eqb_neq in Hp. unfold getProfile in Hfound.
        rewrite Hp in Hfound. discriminate Hfound. }
    destruct lib as [profiles|e].
    2:{ unfold getProfile, call, bind, emit in Hfound. rewrite Hp in Hfound.
        simpl in Hfound. discriminate Hfound. }
    rewrite getProfile_darwin in Hfound by exact Hp. cbn [fst] in Hfound.
    destruct (array_includes valid_profile_types type) eqn:Hvalid;
      [|discriminate Hfound].
    simpl in Hfound.
    destruct (profiles !! type) as [records|] eqn:Hrecords; [|discriminate Hfound].
    destruct (keep_last _ records) as [found|] eqn:Hkeep; [|discriminate Hfound].
    injection Hfound as ->.
    apply keep_last_iff in Hkeep as (before & after & -> & Hmatch & _).
    apply String.eqb_eq in Hmatch.
    split; [exact Hp|]. split; [apply JsFacts.array_includes_In; exact Hvalid|].
    split; [exact Hmatch|]. exists profiles, (before ++ r :: after).
    split; [reflexivity|]. split; [exact Hrecords|].
    apply in_app_iff. right. left. reflexivity.
Qed.

Lemma lookup_result_is_a_match_witness :
  platform mac = "darwin" /\ In "developer" valid_cert_types
  /\ includes (name dev_cert_new) "Jo Bloggs" = true
  /\ exists certs records,
       Ok sample_certs = Ok certs /\ certs !! "developer" = Some records
       /\ In dev_cert_new records.
Proof.
  apply (proj1 (lookup_result_is_a_match mac "developer" "Jo Bloggs"
                  (Ok sample_certs) idle dev_cert_new)).
  reflexivity.
Defined.

End LookupEdges.

(** ** Shutting down the simulator *)

Module Simulator.
Import Device.

(** killSim at work: the simulators are killed once the shutdown command has
    returned, and a shutdown that fails rejects before anything is spawned. *)
Example killSim_after_shutdown :
  killSim (Ok tt) idle
  = (Resolved,
     log idle [Debug "Shutting Down the iOS Simulator";
               ExecSync "xcrun simctl shutdown booted";
               Spawn "killall" ["Simulator"]]).
Proof. reflexivity. Qed.

Example killSim_shutdown_fails :
  killSim (Throw (Err "No devices are booted.")) idle
  = (Rejected (Err "No devices are booted."),
     log idle [Debug "Shutting Down the iOS Simulator";
               ExecSync "xcrun simctl shutdown booted"]).
Proof. reflexivity. Qed.

End Simulator.
